(** * CircuitMark: a shallow embedding of the parser and its data model

    Source files embedded here:
    - [models.py]  : [Node], [Component], [SubcircuitDefinition], [Circuit]
    - [parser.py]  : [COMPONENT_SCHEMA], [KNOWN_PROPERTIES], [Parser]

    Python [str] values are modelled as [string]; a character is read as a
    code point below 256 (Latin-1), on which the definitions of
    [isspace] and [lower] below agree with CPython.  Python dictionaries are
    finite maps ([gmap]); a raised [ValueError] is the [Raise] result. *)

From Stdlib Require Import Ascii String List Bool Arith Lia DecimalString.
From stdpp Require Import base option list gmap strings fin_maps.

(* ------------------------------------------------------------------ *)
(** ** Exceptions and the error monad *)

Inductive exn : Type :=
| ValueError (msg : string).

Inductive result (A : Type) : Type :=
| Ok (a : A)
| Raise (e : exn).
Arguments Ok {A} a.
Arguments Raise {A} e.

Definition bind {A B} (r : result A) (k : A -> result B) : result B :=
  match r with
  | Ok a => k a
  | Raise e => Raise e
  end.

Notation "x <- r ;; k" := (bind r (fun x => k))
  (at level 100, r at next level, right associativity).

(* ------------------------------------------------------------------ *)
(** ** The [str] methods used by the parser *)

Module Str.

Definition newline : ascii := ascii_of_nat 10.

(** [c.isspace()] on code points below 256. *)
Definition isspace (c : ascii) : bool :=
  let n := nat_of_ascii c in
  ((9 <=? n) && (n <=? 13)) || ((28 <=? n) && (n <=? 32))
  || (n =? 133) || (n =? 160).

(** [c.lower()] on code points below 256: A-Z, and the Latin-1 capitals
    0xC0-0xDE except the multiplication sign 0xD7. *)
Definition lower_char (c : ascii) : ascii :=
  let n := nat_of_ascii c in
  if ((65 <=? n) && (n <=? 90))
     || ((192 <=? n) && (n <=? 222) && negb (n =? 215))
  then ascii_of_nat (n + 32) else c.

Fixpoint lower (s : string) : string :=
  match s with
  | EmptyString => EmptyString
  | String c s' => String (lower_char c) (lower s')
  end.

Definition is_empty (s : string) : bool :=
  match s with EmptyString => true | _ => false end.

Fixpoint lstrip_with (p : ascii -> bool) (s : string) : string :=
  match s with
  | EmptyString => EmptyString
  | String c s' => if p c then lstrip_with p s' else s
  end.

Fixpoint rstrip_with (p : ascii -> bool) (s : string) : string :=
  match s with
  | EmptyString => EmptyString
  | String c s' =>
      let r := rstrip_with p s' in
      if p c && is_empty r then EmptyString else String c r
  end.

Definition strip_with (p : ascii -> bool) (s : string) : string :=
  rstrip_with p (lstrip_with p s).

(** [s.strip()] *)
Definition strip (s : string) : string := strip_with isspace s.

Fixpoint mem_char (c : ascii) (chars : string) : bool :=
  match chars with
  | EmptyString => false
  | String d chars' => Ascii.eqb c d || mem_char c chars'
  end.

(** [s.strip(chars)] *)
Definition strip_chars (chars : string) (s : string) : string :=
  strip_with (fun c => mem_char c chars) s.

(** [s.startswith(p)] *)
Definition startswith (s p : string) : bool := String.prefix p s.

(** [c in s] for a one-character [c]. *)
Definition contains (c : ascii) (s : string) : bool := mem_char c s.

(** [s.split(sep)] for a one-character separator: never empty. *)
Fixpoint split (sep : ascii) (s : string) : list string :=
  match s with
  | EmptyString => [EmptyString]
  | String c s' =>
      if Ascii.eqb c sep then EmptyString :: split sep s'
      else match split sep s' with
           | [] => [String c EmptyString]
           | w :: ws => String c w :: ws
           end
  end.

(** [s.split(sep, 1)] when [sep in s]: the text before the first
    separator and the text after it. *)
Fixpoint partition (sep : ascii) (s : string) : string * string :=
  match s with
  | EmptyString => (EmptyString, EmptyString)
  | String c s' =>
      if Ascii.eqb c sep then (EmptyString, s')
      else let '(k, v) := partition sep s' in (String c k, v)
  end.

(** The leading run of non-space characters and what follows it. *)
Fixpoint span_word (s : string) : string * string :=
  match s with
  | EmptyString => (EmptyString, EmptyString)
  | String c s' =>
      if isspace c then (EmptyString, s)
      else let '(w, r) := span_word s' in (String c w, r)
  end.

(** [s.split(maxsplit=1)]: split on runs of white space, at most once. *)
Definition split_ws_1 (s : string) : list string :=
  let s1 := lstrip_with isspace s in
  if is_empty s1 then []
  else let '(w, r) := span_word s1 in
       let r' := lstrip_with isspace r in
       if is_empty r' then [w] else [w; r'].

(** [sep.join(l)] *)
Fixpoint join (sep : string) (l : list string) : string :=
  match l with
  | [] => EmptyString
  | [s] => s
  | s :: l' => s +:+ sep +:+ join sep l'
  end.

(** [str(n)] for a natural number. *)
Definition of_nat (n : nat) : string :=
  NilEmpty.string_of_uint (Nat.to_uint n).

(** [str(x)] for an optional string ([None] prints as [None]). *)
Definition of_option (o : option string) : string :=
  match o with Some s => s | None => "None" end.

End Str.

(* ------------------------------------------------------------------ *)
(** ** [shlex.split(s)]

    The tokenizer is the Python standard library's, not this repository's.
    It is transcribed from [shlex.read_token] as [shlex.split] configures it:
    POSIX mode, [whitespace_split] on, no comment characters, no punctuation
    characters. *)

Module shlex.

Definition double_quote : ascii := ascii_of_nat 34.
Definition single_quote : ascii := ascii_of_nat 39.
Definition backslash : ascii := ascii_of_nat 92.

(** [self.whitespace = ' \t\r\n'] *)
Definition whitespace (c : ascii) : bool :=
  let n := nat_of_ascii c in
  (n =? 32) || (n =? 9) || (n =? 13) || (n =? 10).

(** [self.quotes] *)
Definition quotes (c : ascii) : bool :=
  Ascii.eqb c single_quote || Ascii.eqb c double_quote.

(** [self.escape] *)
Definition escape (c : ascii) : bool := Ascii.eqb c backslash.

(** [self.escapedquotes] *)
Definition escapedquotes (c : ascii) : bool := Ascii.eqb c double_quote.

(** [self.state]: [' '], ['a'], a quote character, or the escape
    character (which remembers [escapedstate]: ['a'] or a quote). *)
Inductive state : Type :=
| Blank
| Word
| Quoted (q : ascii)
| Escaped (escapedstate : option ascii).

Definition snoc (s : string) (c : ascii) : string :=
  s +:+ String c EmptyString.

(** One run over the input.  [token] and [quoted] are the token being
    read; [acc] holds the tokens already returned, latest first. *)
Fixpoint read (st : state) (token : string) (quoted : bool)
         (acc : list string) (input : string) : result (list string) :=
  match input with
  | EmptyString =>
      match st with
      | Blank => Ok (rev acc)
      | Word =>
          if negb (Str.is_empty token) || quoted
          then Ok (rev (token :: acc)) else Ok (rev acc)
      | Quoted _ => Raise (ValueError "No closing quotation")
      | Escaped _ => Raise (ValueError "No escaped character")
      end
  | String nextchar rest =>
      match st with
      | Blank =>
          if whitespace nextchar then read Blank token quoted acc rest
          else if escape nextchar then
                 read (Escaped None) token quoted acc rest
          else if quotes nextchar then
                 read (Quoted nextchar) token true acc rest
          else read Word (String nextchar EmptyString) quoted acc rest
      | Quoted q =>
          if Ascii.eqb nextchar q then read Word token true acc rest
          else if escape nextchar && escapedquotes q then
                 read (Escaped (Some q)) token true acc rest
          else read (Quoted q) (snoc token nextchar) true acc rest
      | Escaped escapedstate =>
          match escapedstate with
          | Some q =>
              let token' :=
                if negb (Ascii.eqb nextchar backslash)
                   && negb (Ascii.eqb nextchar q)
                then snoc token backslash else token in
              read (Quoted q) (snoc token' nextchar) quoted acc rest
          | None => read Word (snoc token nextchar) quoted acc rest
          end
      | Word =>
          if whitespace nextchar then
            if negb (Str.is_empty token) || quoted
            then read Blank EmptyString false (token :: acc) rest
            else read Blank EmptyString false acc rest
          else if quotes nextchar then
                 read (Quoted nextchar) token true acc rest
          else if escape nextchar then
                 read (Escaped None) token quoted acc rest
          else read Word (snoc token nextchar) quoted acc rest
      end
  end.

Definition split (s : string) : result (list string) :=
  read Blank EmptyString false [] s.

End shlex.

(* ------------------------------------------------------------------ *)
(** ** models.py *)

(** A [Node] object.  [id] stands for Python's [id(n)], the identity of the
    object: every call of the constructor yields a value not handed out
    before (see [Circuit.declare_node]). *)
Module Node.
Record t : Type := new { id : nat; name : string }.
End Node.

Module Component.

Record t : Type := mk {
  component_type : string;
  name : string;
  primary_value : option string;
  properties : gmap string string;
  connections : gmap string Node.t
}.

(** [Component(component_type, name, primary_value)] *)
Definition new (component_type name : string)
           (primary_value : option string) : t :=
  mk component_type name primary_value ∅ ∅.

Definition add_property (key value : string) (self : t) : t :=
  mk (component_type self) (name self) (primary_value self)
     (<[key := value]> (properties self)) (connections self).

Definition add_connection (pin_name : string) (node : Node.t) (self : t)
  : t :=
  mk (component_type self) (name self) (primary_value self)
     (properties self) (<[pin_name := node]> (connections self)).

End Component.

Module SubcircuitDefinition.

Record t : Type := mk {
  name : string;
  interface : list string;
  body_text : string
}.

(** [SubcircuitDefinition(name)] *)
Definition new (name : string) : t := mk name [] "".

End SubcircuitDefinition.

Module Circuit.

(** [allocated] counts the [Node] objects created so far for this
    circuit; it is the source of fresh identities. *)
Record t : Type := mk {
  components : gmap string Component.t;
  nodes : gmap string Node.t;
  subcircuit_definitions : gmap string SubcircuitDefinition.t;
  ground_node_name : option string;
  allocated : nat
}.

(** [Circuit()] *)
Definition new : t := mk ∅ ∅ ∅ None 0.

Definition add_component (component : Component.t) (self : t) : result t :=
  match components self !! Component.name component with
  | Some _ =>
      Raise (ValueError ("Component name '" +:+ Component.name component
                           +:+ "' already exists."))
  | None =>
      Ok (mk (<[Component.name component := component]> (components self))
             (nodes self) (subcircuit_definitions self)
             (ground_node_name self) (allocated self))
  end.

Definition declare_node (node_name : string) (self : t) : result t :=
  match nodes self !! node_name with
  | Some _ =>
      Raise (ValueError ("Node '" +:+ node_name
                           +:+ "' has already been declared."))
  | None =>
      Ok (mk (components self)
             (<[node_name := Node.new (allocated self) node_name]>
                (nodes self))
             (subcircuit_definitions self) (ground_node_name self)
             (S (allocated self)))
  end.

(** Python truth value of [self.ground_node_name]: [None] and the empty
    string are false. *)
Definition truthy (o : option string) : bool :=
  match o with
  | Some s => negb (Str.is_empty s)
  | None => false
  end.

Definition set_ground_node (node_name : string) (self : t) : result t :=
  if truthy (ground_node_name self) then
    Raise (ValueError "Ground node has already been set.")
  else
    self' <- match nodes self !! node_name with
             | None => declare_node node_name self
             | Some _ => Ok self
             end ;;
    Ok (mk (components self') (nodes self') (subcircuit_definitions self')
           (Some node_name) (allocated self')).

Definition get_node (node_name : string) (self : t) : result Node.t :=
  match nodes self !! node_name with
  | None =>
      Raise (ValueError ("Undeclared node '" +:+ node_name
               +:+ "'. All nodes must be declared before use."))
  | Some n => Ok n
  end.

End Circuit.

(* ------------------------------------------------------------------ *)
(** ** parser.py *)

(** [x in l] for a list of strings. *)
Definition mem (x : string) (l : list string) : bool :=
  existsb (String.eqb x) l.

(** The schema: component type to its list of pin names (the value stored
    under ['pins']). *)
Definition COMPONENT_SCHEMA : gmap string (list string) :=
  list_to_map
    [ ("resistor", ["from"; "to"]);
      ("capacitor", ["from"; "to"]);
      ("inductor", ["from"; "to"]);
      ("diode", ["from"; "to"]);
      ("battery", ["from"; "to"]);
      ("acsource", ["from"; "to"]);
      ("switch", ["from"; "to"]) ].

Definition KNOWN_PROPERTIES : list string :=
  ["model"; "tolerance"; "power"; "color"; "state"; "amplitude"; "frequency"].

Module Parser.

Definition equals : ascii := ascii_of_nat 61.
Definition comma : ascii := ascii_of_nat 44.
Definition nl : string := String Str.newline EmptyString.

(* ---------------- _parse_subcircuit_block ---------------- *)

(** The loop [for pin_def in pin_defs] of an [expose] line. *)
Fixpoint expose_pins (pin_defs : list string) (interface : list string)
  : result (list string) :=
  match pin_defs with
  | [] => Ok interface
  | pin_def :: pin_defs' =>
      if Str.contains equals pin_def then
        let public_name := Str.strip (fst (Str.partition equals pin_def)) in
        if Str.is_empty public_name then
          Raise (ValueError "Invalid expose mapping in subcircuit.")
        else expose_pins pin_defs' (interface ++ [public_name])
      else
        if Str.is_empty pin_def then
          Raise (ValueError "Invalid expose pin name.")
        else expose_pins pin_defs' (interface ++ [pin_def])
  end.

(** The loop [for line in lines]: the interface and the body lines
    gathered so far are threaded through. *)
Fixpoint collect (lines : list string) (interface body_lines : list string)
  : result (list string * list string) :=
  match lines with
  | [] => Ok (interface, body_lines)
  | line :: lines' =>
      let line := Str.strip line in
      if Str.is_empty line || Str.startswith line "#" then
        collect lines' interface body_lines
      else if Str.startswith line "expose" then
        match Str.split_ws_1 line with
        | _ :: rest :: _ =>
            let pin_defs := map Str.strip (Str.split comma rest) in
            interface' <- expose_pins pin_defs interface ;;
            collect lines' interface' body_lines
        | _ =>
            Raise (ValueError
              "Subcircuit 'expose' line must list pins, e.g. 'expose a,b=c'.")
        end
      else collect lines' interface (body_lines ++ [line])
  end.

Definition _parse_subcircuit_block (name : string) (lines : list string)
           (circuit : Circuit.t) : result Circuit.t :=
  collected <- collect lines [] [] ;;
  let '(interface, body_lines) := collected in
  match interface with
  | [] =>
      Raise (ValueError ("Subcircuit '" +:+ name
               +:+ "' has no 'expose' line defining its interface."))
  | _ :: _ =>
      let sub_def :=
        SubcircuitDefinition.mk name interface (Str.join nl body_lines) in
      Ok (Circuit.mk (Circuit.components circuit) (Circuit.nodes circuit)
            (<[name := sub_def]> (Circuit.subcircuit_definitions circuit))
            (Circuit.ground_node_name circuit) (Circuit.allocated circuit))
  end.

(* ---------------- _parse_component_line ---------------- *)

Definition valid_pins (comp_type : string) : list string :=
  default [] (COMPONENT_SCHEMA !! comp_type).

(** The loop [while tokens]. *)
Fixpoint consume (comp_type comp_name : string) (circuit : Circuit.t)
         (tokens : list string) (component : Component.t)
  : result Component.t :=
  match tokens with
  | [] => Ok component
  | token :: tokens =>
      if String.eqb token "from" then
        match tokens with
        | from_node_name :: next_tok :: to_node_name :: tokens' =>
            if Str.is_empty from_node_name then
              Raise (ValueError "'from' missing node name.")
            else
              match Circuit.get_node from_node_name circuit with
              | Raise e => Raise e
              | Ok n1 =>
                  let component := Component.add_connection "from" n1 component in
                  if negb (String.eqb next_tok "to") then
                    Raise (ValueError "'from' clause must be followed by 'to'.")
                  else if Str.is_empty to_node_name then
                    Raise (ValueError "'to' missing node name.")
                  else
                    match Circuit.get_node to_node_name circuit with
                    | Raise e => Raise e
                    | Ok n2 =>
                        consume comp_type comp_name circuit tokens'
                          (Component.add_connection "to" n2 component)
                    end
              end
        | _ =>
            Raise (ValueError ("Malformed component '" +:+ comp_name
              +:+ "': 'from' must be followed by '<node> to <node>'"))
        end
      else if Str.contains equals token then
        let '(key, value) := Str.partition equals token in
        if Str.is_empty key then
          Raise (ValueError ("Invalid key in token '" +:+ token +:+ "'."))
        else if Str.is_empty value then
          Raise (ValueError ("Invalid value in token '" +:+ token +:+ "'."))
        else if mem key (valid_pins comp_type) then
          match Circuit.get_node value circuit with
          | Raise e => Raise e
          | Ok n =>
              consume comp_type comp_name circuit tokens
                (Component.add_connection key n component)
          end
        else if mem key KNOWN_PROPERTIES then
          consume comp_type comp_name circuit tokens
            (Component.add_property key value component)
        else
          Raise (ValueError ("Invalid pin or property '" +:+ key
            +:+ "' for component type '" +:+ comp_type +:+ "'"))
      else
        Raise (ValueError ("Unexpected token '" +:+ token
          +:+ "' in component '" +:+ comp_name +:+ "'."))
  end.

(** [con_nodes = list(component.connections.values())] *)
Definition con_nodes (component : Component.t) : list Node.t :=
  (map_to_list (Component.connections component)).*2.

(** [unique_ids = {id(n) for n in con_nodes}] *)
Definition unique_ids (component : Component.t) : gset nat :=
  list_to_set (Node.id <$> con_nodes component).

(** The shorted-component check. *)
Definition shorted (component : Component.t) : bool :=
  (1 <? length (con_nodes component)) && (size (unique_ids component) =? 1).

Definition shorted_error (component : Component.t) : exn :=
  ValueError ("Component '" +:+ Component.name component
    +:+ "' is shorted (all pins connect to the same node)").

(** The optional primary value: the third token, unless it is a
    [key=value] token or one of the words [from], [to]. *)
Definition take_primary (tokens : list string)
  : option string * list string :=
  match tokens with
  | t0 :: tokens' =>
      if negb (Str.contains equals t0) && negb (mem t0 ["from"; "to"])
      then (Some t0, tokens') else (None, tokens)
  | [] => (None, tokens)
  end.

(** Everything up to the end of the [while] loop: the component as it
    stands before the shorted check. *)
Definition build_component (line : string) (circuit : Circuit.t)
  : result Component.t :=
  tokens <- shlex.split line ;;
  match tokens with
  | comp_type :: comp_name :: tokens =>
      let comp_type := Str.lower comp_type in
      let '(primary_value, tokens) := take_primary tokens in
      consume comp_type comp_name circuit tokens
        (Component.new comp_type comp_name primary_value)
  | _ =>
      Raise (ValueError
        "Component line must include at least a type and a name.")
  end.

Definition _parse_component_line (line : string) (circuit : Circuit.t)
  : result Circuit.t :=
  component <- build_component line circuit ;;
  if shorted component then Raise (shorted_error component)
  else Circuit.add_component component circuit.

(* ---------------- parse ---------------- *)

(** The local variables of [parse] that live across loop iterations. *)
Record locals : Type := mk {
  circuit : Circuit.t;
  in_subcircuit_block : bool;
  current_subcircuit_name : option string;
  subcircuit_lines : list string
}.

Definition init : locals := mk Circuit.new false None [].

Definition with_circuit (c : Circuit.t) (st : locals) : locals :=
  mk c (in_subcircuit_block st) (current_subcircuit_name st)
     (subcircuit_lines st).

(** The loop [for name in node_names] of a [node] line. *)
Fixpoint declare_nodes (node_names : list string) (c : Circuit.t)
  : result Circuit.t :=
  match node_names with
  | [] => Ok c
  | name :: node_names' =>
      let name := Str.strip name in
      if Str.is_empty name then declare_nodes node_names' c
      else c' <- Circuit.declare_node name c ;; declare_nodes node_names' c'
  end.

(** The body of the [try] for one line, already stripped. *)
Definition process_line (line : string) (st : locals) : result locals :=
  if Str.startswith line "[/subcircuit]" then
    if negb (in_subcircuit_block st) then
      Raise (ValueError "Found end of block '[/subcircuit]' without a start.")
    else
      match current_subcircuit_name st with
      | Some name =>
          c <- _parse_subcircuit_block name (subcircuit_lines st) (circuit st) ;;
          Ok (mk c false None [])
      | None =>
          (* not reached: the name is assigned whenever a block is
             entered, see [block_has_name] *)
          Raise (ValueError "Found end of block '[/subcircuit]' without a start.")
      end
  else if Str.startswith line "[subcircuit" then
    if in_subcircuit_block st then
      Raise (ValueError "Cannot nest subcircuits.")
    else
      match Str.split_ws_1 line with
      | _ :: rest :: _ =>
          Ok (mk (circuit st) true (Some (Str.strip_chars " ]" rest)) [])
      | _ =>
          Raise (ValueError
            "Subcircuit declaration must include a name, e.g. [subcircuit NAME].")
      end
  else if in_subcircuit_block st then
    Ok (mk (circuit st) true (current_subcircuit_name st)
           (subcircuit_lines st ++ [line]))
  else if Str.is_empty line || Str.startswith line "#" then Ok st
  else
    tokens <- shlex.split line ;;
    match tokens with
    | [] => Ok st
    | t0 :: args =>
        let command := Str.lower t0 in
        if String.eqb command "node" then
          match args with
          | [] =>
              Raise (ValueError
                "'node' requires a comma-separated list of node names.")
          | _ :: _ =>
              let node_names := Str.split comma (Str.join " " args) in
              c <- declare_nodes node_names (circuit st) ;;
              Ok (with_circuit c st)
          end
        else if String.eqb command "ground" then
          match args with
          | [node_name] =>
              c <- Circuit.set_ground_node node_name (circuit st) ;;
              Ok (with_circuit c st)
          | _ =>
              Raise (ValueError
                "'ground' declaration must have exactly one node name.")
          end
        else if bool_decide (is_Some (COMPONENT_SCHEMA !! command))
                || bool_decide
                     (is_Some (Circuit.subcircuit_definitions (circuit st)
                                 !! command)) then
          c <- _parse_component_line line (circuit st) ;;
          Ok (with_circuit c st)
        else
          Raise (ValueError ("Unknown command or component type '"
                               +:+ command +:+ "'"))
    end.

(** [raise type(e)(f"On line {line_num}: {e}")] *)
Definition wrap (line_num : nat) (e : exn) : exn :=
  match e with
  | ValueError msg =>
      ValueError ("On line " +:+ Str.of_nat line_num +:+ ": " +:+ msg)
  end.

(** The loop [for line_num, line in enumerate(lines, 1)]. *)
Fixpoint parse_lines (line_num : nat) (lines : list string) (st : locals)
  : result locals :=
  match lines with
  | [] => Ok st
  | line :: lines' =>
      match process_line (Str.strip line) st with
      | Ok st' => parse_lines (S line_num) lines' st'
      | Raise e => Raise (wrap line_num e)
      end
  end.

Definition unclosed_error (st : locals) : exn :=
  ValueError ("Subcircuit '" +:+ Str.of_option (current_subcircuit_name st)
                +:+ "' not closed with [/subcircuit].").

(** [parse] from the loop on, with [lines] already computed. *)
Definition parse_from_lines (lines : list string) : result Circuit.t :=
  st <- parse_lines 1 lines init ;;
  if in_subcircuit_block st then Raise (unclosed_error st)
  else Ok (circuit st).

Definition parse (text : string) : result Circuit.t :=
  let lines := Str.split Str.newline (Str.strip text) in
  parse_from_lines lines.

End Parser.

(** A document given line by line. *)
Definition doc (lines : list string) : string := Str.join Parser.nl lines.

(* ------------------------------------------------------------------ *)
(** ** Vocabulary of the statements *)

(** A line the driver skips in the normal state: empty, or a comment. *)
Definition skipped (line : string) : bool :=
  Str.is_empty line || Str.startswith line "#".

(** A line that opens or closes a block. *)
Definition is_marker (line : string) : bool :=
  Str.startswith (Str.strip line) "[/subcircuit]"
  || Str.startswith (Str.strip line) "[subcircuit".

(** A line of a block that the collector reads as an [expose] line. *)
Definition is_expose_line (line : string) : bool :=
  Str.startswith (Str.strip line) "expose".

(** A character that can stand anywhere in a block name written between
    [[subcircuit ] and []]: no white space, no closing bracket. *)
Definition name_char (c : ascii) : bool :=
  negb (Str.isspace c) && negb (Str.mem_char c " ]").

Fixpoint all_chars (p : ascii -> bool) (s : string) : bool :=
  match s with
  | EmptyString => true
  | String c s' => p c && all_chars p s'
  end.

(** Inside a block the remembered name is set. *)
Definition block_has_name (st : Parser.locals) : Prop :=
  Parser.in_subcircuit_block st = true -> is_Some (Parser.current_subcircuit_name st).

(** While [lines] are processed from [st] on, a block named [S] is
    closed: some line is a closing marker met while the remembered name
    is [S]. *)
Fixpoint closes_block_named (S : string) (lines : list string)
         (st : Parser.locals) : Prop :=
  match lines with
  | [] => False
  | l :: lines' =>
      (Str.startswith (Str.strip l) "[/subcircuit]" = true
       /\ Parser.current_subcircuit_name st = Some S)
      \/ match Parser.process_line (Str.strip l) st with
         | Ok st' => closes_block_named S lines' st'
         | Raise _ => False
         end
  end.

(** Node identities are below the allocation count, and two names never
    hold a Node of the same identity. *)
Definition heap_ok (c : Circuit.t) : Prop :=
  (forall k n, Circuit.nodes c !! k = Some n -> Node.id n < Circuit.allocated c)
  /\ (forall k1 k2 n1 n2,
         Circuit.nodes c !! k1 = Some n1 -> Circuit.nodes c !! k2 = Some n2 ->
         Node.id n1 = Node.id n2 -> k1 = k2).

(** [c'] keeps every component and node of [c], and the subcircuit
    definitions are those of [c]. *)
Definition grows (c c' : Circuit.t) : Prop :=
  Circuit.components c ⊆ Circuit.components c'
  /\ Circuit.nodes c ⊆ Circuit.nodes c'
  /\ Circuit.subcircuit_definitions c' = Circuit.subcircuit_definitions c
  /\ (heap_ok c -> heap_ok c').

(** The component that [resistor R1 10k from n1 to n2] describes, given
    the two Nodes its pins resolve to. *)
Definition R1_component (N1 N2 : Node.t) : Component.t :=
  Component.mk "resistor" "R1" (Some "10k") ∅
    (<["to" := N2]> {[ "from" := N1 ]}).

(** ** Vocabulary of the further properties *)

(** The names a [node] line declares: trimmed, the empty ones dropped. *)
Definition declared_names (node_names : list string) : list string :=
  List.filter (fun name => negb (Str.is_empty name)) (map Str.strip node_names).

(** A trimmed line of a block that goes into the body text. *)
Definition is_body_line (line : string) : bool :=
  negb (skipped line) && negb (Str.startswith line "expose").

(** The body lines of a block, in order. *)
Definition body_lines_of (lines : list string) : list string :=
  List.filter is_body_line (map Str.strip lines).

(** What holds of a component stored in circuit [c] under the key [k]. *)
Definition component_ok (c : Circuit.t) (k : string) (x : Component.t) : Prop :=
  Component.name x = k
  /\ Str.lower (Component.component_type x) = Component.component_type x
  /\ (is_Some (COMPONENT_SCHEMA !! Component.component_type x)
      \/ is_Some (Circuit.subcircuit_definitions c
                    !! Component.component_type x))
  /\ (forall pin n, Component.connections x !! pin = Some n ->
        (pin = "from" \/ pin = "to")
        /\ Circuit.nodes c !! Node.name n = Some n)
  /\ (forall key value, Component.properties x !! key = Some value ->
        key ∈ KNOWN_PROPERTIES /\ value <> "")
  /\ (forall value, Component.primary_value x = Some value ->
        Str.contains Parser.equals value = false
        /\ value <> "from" /\ value <> "to")
  /\ Parser.shorted x = false.

(** What holds of every circuit the parser builds. *)
Definition circuit_ok (c : Circuit.t) : Prop :=
  (forall k n, Circuit.nodes c !! k = Some n -> Node.name n = k)
  /\ (forall g, Circuit.ground_node_name c = Some g ->
        is_Some (Circuit.nodes c !! g))
  /\ (forall S d, Circuit.subcircuit_definitions c !! S = Some d ->
        SubcircuitDefinition.name d = S
        /\ SubcircuitDefinition.interface d <> []
        /\ Forall (fun pin => pin <> "") (SubcircuitDefinition.interface d))
  /\ (forall k x, Circuit.components c !! k = Some x -> component_ok c k x).

(** What the token loop may do to a component: the type, name and primary
    value stay; a connection it adds is on pin [from] or [to] and holds a
    Node of circuit [c]; a property it adds has a known key and a non-empty
    value. *)
Definition token_loop_step (c : Circuit.t) (x x' : Component.t) : Prop :=
  Component.component_type x' = Component.component_type x
  /\ Component.name x' = Component.name x
  /\ Component.primary_value x' = Component.primary_value x
  /\ (forall pin n, Component.connections x' !! pin = Some n ->
        Component.connections x !! pin = Some n
        \/ ((pin = "from" \/ pin = "to")
            /\ exists k, Circuit.nodes c !! k = Some n))
  /\ (forall key value, Component.properties x' !! key = Some value ->
        Component.properties x !! key = Some value
        \/ (key ∈ KNOWN_PROPERTIES /\ value <> "")).

(** A document that uses every kind of line. *)
Definition sample_document : string :=
  doc ["# an amplifier stage";
       "[subcircuit amp]"; "expose in, out=o1"; "resistor RF 1k from in to out";
       "[/subcircuit]";
       "node n1, n2"; "ground gnd";
       "Resistor R1 10k from n1 to n2 tolerance=5%";
       "amp A1 from n2 to gnd"].

(* ================================================================== *)
(** * Properties *)

(** ** Strings *)

Section StrFacts.

Lemma is_empty_true s : Str.is_empty s = true <-> s = "".
Proof. destruct s; simpl; split; congruence. Qed.

Lemma is_empty_false s : Str.is_empty s = false <-> s <> "".
Proof. destruct s; simpl; split; congruence. Qed.

Lemma startswith_cons_ne c d p s :
  c <> d -> Str.startswith (String d s) (String c p) = false.
Proof.
  intros Hne. unfold Str.startswith. simpl.
  destruct (ascii_dec c d); [contradiction | reflexivity].
Qed.

Lemma startswith_cons_inv c d p s :
  Str.startswith (String d s) (String c p) = true ->
  c = d /\ Str.startswith s p = true.
Proof.
  unfold Str.startswith. simpl.
  destruct (ascii_dec c d); [auto | discriminate].
Qed.

Lemma startswith_empty c p : Str.startswith "" (String c p) = false.
Proof. reflexivity. Qed.

End StrFacts.

(** ** The driver loop *)

Section Driver.

Import Parser.

Lemma skipped_not_block_end line :
  skipped line = true -> Str.startswith line "[/subcircuit]" = false.
Proof.
  unfold skipped. destruct line as [|c line]; [reflexivity|]. simpl.
  intros H. apply startswith_cons_inv in H as [<- _].
  apply startswith_cons_ne. discriminate.
Qed.

Lemma skipped_not_block_start line :
  skipped line = true -> Str.startswith line "[subcircuit" = false.
Proof.
  unfold skipped. destruct line as [|c line]; [reflexivity|]. simpl.
  intros H. apply startswith_cons_inv in H as [<- _].
  apply startswith_cons_ne. discriminate.
Qed.

Lemma process_line_skipped line st :
  in_subcircuit_block st = false ->
  skipped line = true ->
  process_line line st = Ok st.
Proof.
  intros Hn Hs. unfold process_line.
  rewrite (skipped_not_block_end _ Hs), (skipped_not_block_start _ Hs), Hn.
  unfold skipped in Hs. rewrite Hs. reflexivity.
Qed.

Lemma parse_lines_skipped lines : forall n st,
  in_subcircuit_block st = false ->
  Forall (fun l => skipped (Str.strip l) = true) lines ->
  parse_lines n lines st = Ok st.
Proof.
  induction lines as [|l lines IH]; intros n st Hn Hall; [reflexivity|].
  inversion Hall as [|? ? Hl Hrest]; subst. simpl.
  rewrite (process_line_skipped _ _ Hn Hl). auto.
Qed.

Lemma parse_lines_app l1 : forall l2 n st,
  parse_lines n (l1 ++ l2) st =
  match parse_lines n l1 st with
  | Ok st' => parse_lines (n + length l1) l2 st'
  | Raise e => Raise e
  end.
Proof.
  induction l1 as [|l l1 IH]; intros l2 n st; simpl.
  - f_equal. lia.
  - destruct (process_line (Str.strip l) st); [|reflexivity].
    rewrite IH. replace (S n + length l1) with (n + S (length l1)) by lia.
    reflexivity.
Qed.

(** Where a failing loop fails: at some line [k] (counted from 0), after
    the lines before it were processed without failure. *)
Lemma parse_lines_raise lines : forall n st e,
  parse_lines n lines st = Raise e ->
  exists k line st' e0,
    lines !! k = Some line /\
    parse_lines n (take k lines) st = Ok st' /\
    process_line (Str.strip line) st' = Raise e0 /\
    e = wrap (n + k) e0.
Proof.
  induction lines as [|l lines IH]; intros n st e H; [discriminate|].
  simpl in H. destruct (process_line (Str.strip l) st) as [st1|e1] eqn:E.
  - destruct (IH _ _ _ H) as (k & line & st' & e0 & Hk & Ht & Hp & ->).
    exists (S k), line, st', e0. simpl. rewrite E.
    repeat split; auto. f_equal. lia.
  - exists 0, l, st, e1. simpl. injection H as <-.
    repeat split; auto. f_equal. lia.
Qed.

End Driver.

Section BlockName.

Import Parser.

Lemma block_has_name_init : block_has_name init.
Proof. intros H. discriminate. Qed.

Lemma process_line_block_has_name line st st' :
  block_has_name st -> process_line line st = Ok st' -> block_has_name st'.
Proof.
  intros Hinv. unfold process_line.
  destruct (Str.startswith line "[/subcircuit]").
  { destruct (in_subcircuit_block st); simpl; [|discriminate].
    destruct (current_subcircuit_name st); [|discriminate].
    destruct (_parse_subcircuit_block _ _ _); simpl; [|discriminate].
    intros [= <-] H. discriminate. }
  destruct (Str.startswith line "[subcircuit").
  { destruct (in_subcircuit_block st); [discriminate|].
    destruct (Str.split_ws_1 line) as [|? [|? ?]]; try discriminate.
    intros [= <-] _. simpl. eauto. }
  destruct (in_subcircuit_block st) eqn:Hb.
  { intros [= <-] _. simpl. auto. }
  assert (Hgen : forall c, block_has_name (with_circuit c st)).
  { intros c H. simpl in H. congruence. }
  destruct (_ || _); [intros [= <-]; exact Hinv|].
  destruct (shlex.split line) as [[|t0 args]|]; simpl; try discriminate.
  { intros [= <-]; exact Hinv. }
  destruct (String.eqb _ "node").
  { destruct args; [discriminate|].
    destruct (declare_nodes _ _); simpl; [|discriminate].
    intros [= <-]. apply Hgen. }
  destruct (String.eqb _ "ground").
  { destruct args as [|? [|? ?]]; try discriminate.
    destruct (Circuit.set_ground_node _ _); simpl; [|discriminate].
    intros [= <-]. apply Hgen. }
  destruct (_ || _); [|discriminate].
  destruct (_parse_component_line _ _); simpl; [|discriminate].
  intros [= <-]. apply Hgen.
Qed.

Lemma parse_lines_block_has_name lines : forall n st st',
  block_has_name st -> parse_lines n lines st = Ok st' -> block_has_name st'.
Proof.
  induction lines as [|l lines IH]; intros n st st' Hinv; simpl.
  - intros [= <-]. exact Hinv.
  - destruct (process_line (Str.strip l) st) eqn:E; [|discriminate].
    eauto using process_line_block_has_name.
Qed.

End BlockName.

(** C5 (as amended): a failure raised while line N is processed reaches the
    caller as the same message prefixed with [On line N: ], N counted from 1
    over the trimmed-and-split lines; the only other failure, the unclosed
    block found after the loop, reaches the caller without a prefix and
    names the block. *)
Theorem parse_failure_where (text : string) (e : exn) :
  Parser.parse text = Raise e ->
  let lines := Str.split Str.newline (Str.strip text) in
  (exists (N : nat) (line : string) (st : Parser.locals) (msg : string),
      1 <= N <= length lines /\
      lines !! (N - 1) = Some line /\
      Parser.parse_lines 1 (take (N - 1) lines) Parser.init = Ok st /\
      Parser.process_line (Str.strip line) st = Raise (ValueError msg) /\
      e = ValueError ("On line " +:+ Str.of_nat N +:+ ": " +:+ msg))
  \/
  (exists (st : Parser.locals) (name : string),
      Parser.parse_lines 1 lines Parser.init = Ok st /\
      Parser.in_subcircuit_block st = true /\
      Parser.current_subcircuit_name st = Some name /\
      e = ValueError ("Subcircuit '" +:+ name
                        +:+ "' not closed with [/subcircuit].")).
Proof.
  unfold Parser.parse, Parser.parse_from_lines. cbv zeta.
  set (lines := Str.split Str.newline (Str.strip text)). intros H.
  destruct (Parser.parse_lines 1 lines Parser.init) as [st|e1] eqn:E;
    simpl in H.
  - right. destruct (Parser.in_subcircuit_block st) eqn:Hb; [|discriminate].
    destruct (parse_lines_block_has_name _ _ _ _ block_has_name_init E Hb)
      as [name Hname].
    exists st, name. repeat split; auto.
    injection H as <-. unfold Parser.unclosed_error. rewrite Hname.
    reflexivity.
  - left. injection H as <-.
    destruct (parse_lines_raise _ _ _ _ E)
      as (k & line & st' & [msg] & Hk & Ht & Hp & ->).
    exists (S k), line, st', msg.
    replace (S k - 1) with k by lia.
    pose proof (lookup_lt_Some _ _ _ Hk).
    repeat split; auto; lia.
Qed.

(** C5, the claim as stated fails: the unclosed-block failure carries no
    line prefix. *)
Lemma parse_unclosed_block_no_prefix :
  Parser.parse "[subcircuit X]"
  = Raise (ValueError "Subcircuit 'X' not closed with [/subcircuit].")
  /\ ~ (exists (N : nat) (msg : string),
          Parser.parse "[subcircuit X]"
          = Raise (ValueError ("On line " +:+ Str.of_nat N +:+ ": " +:+ msg))).
Proof.
  assert (E : Parser.parse "[subcircuit X]"
              = Raise (ValueError
                         "Subcircuit 'X' not closed with [/subcircuit]."))
    by (vm_compute; reflexivity).
  split; [exact E|].
  intros (N & msg & H). rewrite E in H. simpl in H. discriminate.
Qed.

Lemma parse_failure_where_witness :
  Parser.parse "lamp L1"
  = Raise (ValueError "On line 1: Unknown command or component type 'lamp'")
  /\ exists (N : nat) (msg : string),
       ValueError "On line 1: Unknown command or component type 'lamp'"
       = ValueError ("On line " +:+ Str.of_nat N +:+ ": " +:+ msg).
Proof.
  assert (E : Parser.parse "lamp L1"
              = Raise (ValueError
                  "On line 1: Unknown command or component type 'lamp'"))
    by (vm_compute; reflexivity).
  split; [exact E|].
  destruct (parse_failure_where "lamp L1" _ E)
    as [(N & line & st & msg & _ & _ & _ & _ & H) | (st & name & _ & _ & _ & H)].
  - exists N, msg. exact H.
  - exfalso. simpl in H. discriminate.
Defined.

(** ** Trimming a document and splitting it into lines *)

Section StripSplit.

Variable p : ascii -> bool.

Lemma lstrip_rstrip_comm s :
  Str.lstrip_with p (Str.rstrip_with p s)
  = Str.rstrip_with p (Str.lstrip_with p s).
Proof.
  induction s as [|c s IH]; [reflexivity|]. simpl.
  destruct (p c) eqn:Hc; simpl.
  - destruct (Str.is_empty (Str.rstrip_with p s)) eqn:He.
    + rewrite <- IH. apply is_empty_true in He. rewrite He. reflexivity.
    + simpl. rewrite Hc. exact IH.
  - rewrite Hc. simpl. reflexivity.
Qed.

Lemma rstrip_idem s :
  Str.rstrip_with p (Str.rstrip_with p s) = Str.rstrip_with p s.
Proof.
  induction s as [|c s IH]; [reflexivity|]. simpl.
  destruct (p c && Str.is_empty (Str.rstrip_with p s)) eqn:E;
    [reflexivity|].
  simpl. rewrite IH, E. reflexivity.
Qed.

Lemma strip_rstrip s :
  Str.strip_with p (Str.rstrip_with p s) = Str.strip_with p s.
Proof.
  unfold Str.strip_with. rewrite lstrip_rstrip_comm. apply rstrip_idem.
Qed.

Lemma strip_cons_space c s :
  p c = true -> Str.strip_with p (String c s) = Str.strip_with p s.
Proof. intros Hc. unfold Str.strip_with. simpl. rewrite Hc. reflexivity. Qed.

End StripSplit.

Section SplitFacts.

Variable sep : ascii.

Lemma split_nonempty s : Str.split sep s <> [].
Proof.
  destruct s as [|c s]; simpl; [discriminate|].
  destruct (Ascii.eqb c sep); [discriminate|].
  destruct (Str.split sep s); discriminate.
Qed.

Lemma split_single_empty s : Str.split sep s = [""] -> s = "".
Proof.
  destruct s as [|c s]; simpl; [reflexivity|].
  destruct (Ascii.eqb c sep).
  - intros [= H]. destruct (split_nonempty _ H).
  - destruct (Str.split sep s); discriminate.
Qed.

End SplitFacts.

Section TrimmedLines.

(** A property of lines that does not see surrounding white space. *)
Variable Q : string -> Prop.
Hypothesis Q_space : forall c l, Str.isspace c = true -> Q (String c l) -> Q l.
Hypothesis Q_rstrip : forall l, Q l -> Q (Str.rstrip_with Str.isspace l).

Lemma lines_lstrip text :
  Forall Q (Str.split Str.newline text) ->
  Forall Q (Str.split Str.newline (Str.lstrip_with Str.isspace text)).
Proof.
  induction text as [|c text IH]; [auto|]. simpl.
  destruct (Str.isspace c) eqn:Hc; [|auto].
  intros H. apply IH.
  destruct (Ascii.eqb c Str.newline).
  - inversion H; auto.
  - destruct (Str.split Str.newline text) as [|w ws]; [constructor|].
    inversion H; subst. constructor; eauto.
Qed.

Lemma lines_rstrip_shape text : forall w ws,
  Str.split Str.newline text = w :: ws ->
  exists w' ws',
    Str.split Str.newline (Str.rstrip_with Str.isspace text) = w' :: ws' /\
    (Forall Q ws -> Forall Q ws') /\
    (w' = w \/ (w' = Str.rstrip_with Str.isspace w /\ ws' = [])).
Proof.
  induction text as [|c text IH]; intros w ws Hsplit.
  { simpl in *. injection Hsplit as <- <-. exists "", []. auto. }
  simpl in Hsplit. simpl.
  destruct (Str.split Str.newline text) as [|w1 ws1] eqn:E1;
    [destruct (split_nonempty _ _ E1)|].
  destruct (IH _ _ eq_refl) as (w1' & ws1' & E1' & Hws & Hw).
  assert (HQ1 : Forall Q (w1 :: ws1) -> Forall Q (w1' :: ws1')).
  { intros HF. inversion HF; subst. constructor; [|auto].
    destruct Hw as [-> | [-> _]]; auto. }
  destruct (Str.isspace c && Str.is_empty (Str.rstrip_with Str.isspace text))
    eqn:Hcut.
  - apply andb_prop in Hcut as [Hc He]. apply is_empty_true in He.
    rewrite He in E1'. simpl in E1'. injection E1' as <- <-.
    exists "", []. split; [reflexivity|]. split; [auto|].
    destruct (Ascii.eqb c Str.newline).
    + injection Hsplit as <- <-. auto.
    + injection Hsplit as <- <-. right. split; [|reflexivity].
      simpl. rewrite Hc.
      destruct Hw as [<- | [<- _]]; reflexivity.
  - simpl. destruct (Ascii.eqb c Str.newline).
    + injection Hsplit as <- <-. rewrite E1'.
      exists "", (w1' :: ws1'). auto.
    + injection Hsplit as <- <-. rewrite E1'.
      exists (String c w1'), ws1'. split; [reflexivity|]. split; [auto|].
      destruct Hw as [-> | [-> ->]]; [auto|].
      right. split; [|reflexivity]. simpl.
      destruct (Str.isspace c && Str.is_empty (Str.rstrip_with Str.isspace w1))
        eqn:Hcut'; [|reflexivity].
      apply andb_prop in Hcut' as [Hc He]. apply is_empty_true in He.
      rewrite He in E1'. apply split_single_empty in E1'.
      rewrite E1', Hc in Hcut. discriminate.
Qed.

Lemma lines_rstrip text :
  Forall Q (Str.split Str.newline text) ->
  Forall Q (Str.split Str.newline (Str.rstrip_with Str.isspace text)).
Proof.
  destruct (Str.split Str.newline text) as [|w ws] eqn:E;
    [destruct (split_nonempty _ _ E)|].
  destruct (lines_rstrip_shape _ _ _ E) as (w' & ws' & -> & Hws & Hw).
  intros HF. inversion HF; subst. constructor; [|auto].
  destruct Hw as [-> | [-> _]]; auto.
Qed.

(** The lines the parser sees inherit the property from the lines of
    the raw text. *)
Lemma lines_strip text :
  Forall Q (Str.split Str.newline text) ->
  Forall Q (Str.split Str.newline (Str.strip text)).
Proof.
  intros H. unfold Str.strip, Str.strip_with.
  apply lines_rstrip, lines_lstrip, H.
Qed.

End TrimmedLines.

Lemma skipped_lines_strip text :
  Forall (fun l => skipped (Str.strip l) = true) (Str.split Str.newline text) ->
  Forall (fun l => skipped (Str.strip l) = true)
         (Str.split Str.newline (Str.strip text)).
Proof.
  apply lines_strip.
  - intros c l Hc. unfold Str.strip. rewrite strip_cons_space by exact Hc.
    auto.
  - intros l. unfold Str.strip. rewrite strip_rstrip. auto.
Qed.

(** C10: the empty string, and every document whose lines are all blank or
    comments (a [#] first after leading white space), parse to a Circuit
    with no components, no nodes, no subcircuit definitions and no ground
    node. *)
Theorem parse_blank_document :
  (exists c, Parser.parse "" = Ok c /\
     Circuit.components c = ∅ /\ Circuit.nodes c = ∅ /\
     Circuit.subcircuit_definitions c = ∅ /\
     Circuit.ground_node_name c = None)
  /\
  (forall text : string,
     Forall (fun line => Str.strip line = ""
                         \/ Str.startswith (Str.strip line) "#" = true)
            (Str.split Str.newline text) ->
     exists c, Parser.parse text = Ok c /\
       Circuit.components c = ∅ /\ Circuit.nodes c = ∅ /\
       Circuit.subcircuit_definitions c = ∅ /\
       Circuit.ground_node_name c = None).
Proof.
  assert (Hgen : forall text : string,
     Forall (fun line => Str.strip line = ""
                         \/ Str.startswith (Str.strip line) "#" = true)
            (Str.split Str.newline text) ->
     Parser.parse text = Ok Circuit.new).
  { intros text H. unfold Parser.parse, Parser.parse_from_lines.
    rewrite parse_lines_skipped; [reflexivity | reflexivity |].
    apply skipped_lines_strip. eapply Forall_impl; [exact H|].
    intros l [Hl | Hl]; unfold skipped; simpl in *.
    - rewrite Hl. reflexivity.
    - rewrite Hl. apply orb_true_r. }
  split.
  - exists Circuit.new. split; [|repeat split].
    apply Hgen. simpl. constructor; [left; reflexivity | constructor].
  - intros text H. exists Circuit.new. split; [auto | repeat split].
Qed.

Lemma parse_blank_document_witness :
  exists c,
    Parser.parse (doc ["# two resistors in series"; "   "; "  # end"]) = Ok c
    /\ Circuit.components c = ∅.
Proof.
  destruct (proj2 parse_blank_document
              (doc ["# two resistors in series"; "   "; "  # end"]))
    as (c & Hc & Hcomp & _).
  - assert (E : Str.split Str.newline
                  (doc ["# two resistors in series"; "   "; "  # end"])
                = ["# two resistors in series"; "   "; "  # end"])
      by (vm_compute; reflexivity).
    rewrite E.
    constructor; [right; reflexivity|].
    constructor; [left; reflexivity|].
    constructor; [right; reflexivity|].
    constructor.
  - exists c. split; assumption.
Defined.

(** ** The shorted-component check *)

Section Shorted.

Import Parser.

Lemma con_nodes_length component :
  length (con_nodes component) = size (Component.connections component).
Proof. unfold con_nodes. rewrite length_fmap. apply length_map_to_list. Qed.

Lemma elem_of_unique_ids component i :
  i ∈ unique_ids component <->
  exists pin n, Component.connections component !! pin = Some n
                /\ Node.id n = i.
Proof.
  unfold unique_ids, con_nodes. rewrite elem_of_list_to_set, list_elem_of_fmap.
  split.
  - intros (n & -> & Hn). apply list_elem_of_fmap in Hn as ([pin n'] & -> & Hin).
    apply elem_of_map_to_list in Hin. eauto.
  - intros (pin & n & Hl & <-). exists n. split; [reflexivity|].
    apply list_elem_of_fmap. exists (pin, n). split; [reflexivity|].
    apply elem_of_map_to_list. exact Hl.
Qed.

(** The check is true exactly when at least two pins are connected and
    all connected nodes have one identity. *)
Lemma shorted_iff component :
  shorted component = true <->
  1 < size (Component.connections component) /\
  (forall p q n m,
      Component.connections component !! p = Some n ->
      Component.connections component !! q = Some m ->
      Node.id n = Node.id m).
Proof.
  unfold shorted. rewrite andb_true_iff, Nat.ltb_lt, Nat.eqb_eq.
  rewrite con_nodes_length. split.
  - intros [Hsz H1]. split; [exact Hsz|]. intros p q n m Hp Hq.
    apply (size_singleton_inv (unique_ids component)); [exact H1 | |];
      apply elem_of_unique_ids; eauto.
  - intros [Hsz Hsame]. split; [exact Hsz|].
    destruct (map_choose (Component.connections component))
      as (p & n & Hp).
    { intros He. rewrite He, map_size_empty in Hsz. lia. }
    assert (Heq : unique_ids component = {[ Node.id n ]}).
    { apply set_eq. intros i. rewrite elem_of_unique_ids, elem_of_singleton.
      split.
      - intros (q & m & Hq & <-). eauto.
      - intros ->. eauto. }
    rewrite Heq. apply size_singleton.
Qed.

(** Two Nodes of one name but different identity do not count as one. *)
Lemma same_name_other_identity_not_shorted :
  shorted (Component.mk "resistor" "R1" None ∅
             (<["to" := Node.new 1 "a"]> {[ "from" := Node.new 0 "a" ]}))
  = false.
Proof. vm_compute. reflexivity. Qed.

Lemma add_component_not_shorted_error component component' circuit :
  Circuit.add_component component circuit <> Raise (shorted_error component').
Proof.
  unfold Circuit.add_component, shorted_error.
  destruct (Circuit.components circuit !! Component.name component);
    [|discriminate].
  simpl. intros [= H].
Qed.

End Shorted.

(** C3: once the tokens of a component line are consumed, the parser fails
    as shorted exactly when more than one pin is connected and all connected
    pins hold a Node of one identity ([Node.id], never the name); a
    component with two pins on Nodes of different identity does not fail
    as shorted. *)
Theorem shorted_exactly_when_one_node
  (line : string) (circuit : Circuit.t) (component : Component.t) :
  Parser.build_component line circuit = Ok component ->
  (Parser._parse_component_line line circuit
     = Raise (ValueError ("Component '" +:+ Component.name component
                +:+ "' is shorted (all pins connect to the same node)"))
   <->
   1 < size (Component.connections component) /\
   (forall p q n m,
       Component.connections component !! p = Some n ->
       Component.connections component !! q = Some m ->
       Node.id n = Node.id m))
  /\
  (forall p q n m,
      Component.connections component !! p = Some n ->
      Component.connections component !! q = Some m ->
      Node.id n <> Node.id m ->
      Parser._parse_component_line line circuit
      <> Raise (ValueError ("Component '" +:+ Component.name component
                  +:+ "' is shorted (all pins connect to the same node)"))).
Proof.
  intros Hbuild.
  assert (Hiff : Parser._parse_component_line line circuit
                 = Raise (Parser.shorted_error component)
                 <-> Parser.shorted component = true).
  { unfold Parser._parse_component_line. rewrite Hbuild. simpl.
    destruct (Parser.shorted component); split; auto.
    - intros H. destruct (add_component_not_shorted_error _ _ _ H).
    - discriminate. }
  rewrite shorted_iff in Hiff. fold (Parser.shorted_error component).
  split; [exact Hiff|].
  intros p q n m Hp Hq Hne H. apply Hiff in H as [_ H].
  exact (Hne (H _ _ _ _ Hp Hq)).
Qed.

Lemma shorted_exactly_when_one_node_witness :
  Parser._parse_component_line "resistor R1 from n1 to n1"
    (Circuit.mk ∅ {[ "n1" := Node.new 0 "n1" ]} ∅ None 1)
  = Raise (ValueError
             "Component 'R1' is shorted (all pins connect to the same node)").
Proof.
  set (circuit := Circuit.mk ∅ {[ "n1" := Node.new 0 "n1" ]} ∅ None 1).
  set (component :=
         Component.mk "resistor" "R1" None ∅
           (<["to" := Node.new 0 "n1"]> {[ "from" := Node.new 0 "n1" ]})).
  assert (Hbuild : Parser.build_component "resistor R1 from n1 to n1" circuit
                   = Ok component) by (vm_compute; reflexivity).
  apply (proj1 (shorted_exactly_when_one_node _ _ _ Hbuild)).
  apply shorted_iff. vm_compute. reflexivity.
Defined.

(** ** The token loop of a component line *)

Section Consume.

Import Parser.

Local Arguments mem : simpl never.
Local Arguments valid_pins : simpl never.

Lemma mem_elem_of x l : mem x l = true <-> x ∈ l.
Proof.
  unfold mem. rewrite existsb_exists, list_elem_of_In. split.
  - intros (y & Hin & Heq). apply String.eqb_eq in Heq. subst. exact Hin.
  - intros Hin. exists x. split; [exact Hin | apply String.eqb_refl].
Qed.

Lemma mem_not_elem_of x l : mem x l = false <-> x ∉ l.
Proof.
  rewrite <- mem_elem_of. destruct (mem x l); split; congruence.
Qed.

Lemma contains_not_from token :
  Str.contains equals token = true -> String.eqb token "from" = false.
Proof.
  intros H. destruct (String.eqb_spec token "from") as [-> | ]; [|reflexivity].
  vm_compute in H. discriminate.
Qed.

(** Tokens consumed without failure are consumed the same way whatever
    follows them. *)
Lemma consume_app comp_type comp_name circuit rest : forall n pre component component',
  length pre <= n ->
  consume comp_type comp_name circuit pre component = Ok component' ->
  consume comp_type comp_name circuit (pre ++ rest) component
  = consume comp_type comp_name circuit rest component'.
Proof.
  induction n as [|n IH]; intros pre component component' Hlen.
  { destruct pre; simpl in *; [|lia]. intros [= <-]. reflexivity. }
  destruct pre as [|token pre]; [intros [= <-]; reflexivity|].
  simpl in Hlen. simpl.
  destruct (String.eqb token "from").
  - destruct pre as [|a [|b [|d pre']]]; try discriminate. simpl in *.
    destruct (Str.is_empty a); [discriminate|].
    destruct (Circuit.get_node a circuit); [|discriminate].
    destruct (negb (String.eqb b "to")); [discriminate|].
    destruct (Str.is_empty d); [discriminate|].
    destruct (Circuit.get_node d circuit); [|discriminate].
    apply IH. lia.
  - destruct (Str.contains equals token); [|discriminate].
    destruct (Str.partition equals token) as [key value].
    destruct (Str.is_empty key); [discriminate|].
    destruct (Str.is_empty value); [discriminate|].
    destruct (mem key (valid_pins comp_type)).
    { destruct (Circuit.get_node value circuit); [|discriminate].
      apply IH. lia. }
    destruct (mem key KNOWN_PROPERTIES); [|discriminate].
    apply IH. lia.
Qed.

(** A [key=value] token taken up by the loop whose key is neither a pin of
    the type nor a known property stops the loop with a failure. *)
Lemma consume_unknown_key comp_type comp_name circuit token key value
      tokens component :
  Str.contains equals token = true ->
  Str.partition equals token = (key, value) ->
  key ∉ valid_pins comp_type ->
  key ∉ KNOWN_PROPERTIES ->
  exists e,
    consume comp_type comp_name circuit (token :: tokens) component = Raise e
    /\ (key <> "" -> value <> "" ->
        e = ValueError ("Invalid pin or property '" +:+ key
              +:+ "' for component type '" +:+ comp_type +:+ "'")).
Proof.
  intros Hc Hp Hpin Hprop. simpl.
  rewrite (contains_not_from _ Hc), Hc, Hp.
  apply mem_not_elem_of in Hpin, Hprop. rewrite Hpin, Hprop.
  destruct (Str.is_empty key) eqn:Hk.
  { eexists. split; [reflexivity|]. apply is_empty_true in Hk. congruence. }
  destruct (Str.is_empty value) eqn:Hv.
  { eexists. split; [reflexivity|]. apply is_empty_true in Hv. congruence. }
  eexists. split; reflexivity.
Qed.

End Consume.

Lemma capacitor_frequency_parse :
  exists c component,
    Parser.parse (doc ["node n1, n2";
                       "capacitor C1 from n1 to n2 frequency=1k"]) = Ok c
    /\ Circuit.components c !! "C1" = Some component
    /\ Component.properties component !! "frequency" = Some "1k".
Proof.
  destruct (Parser.parse (doc ["node n1, n2";
                               "capacitor C1 from n1 to n2 frequency=1k"]))
    as [c|e] eqn:E; vm_compute in E; [|discriminate].
  injection E as <-. eexists _, _. split; [reflexivity|].
  split; vm_compute; reflexivity.
Qed.

(** C2, the claim as stated fails: [frequency] is a known property, so the
    capacitor line with [frequency=1k] does not fail; the property is
    recorded. *)
Lemma capacitor_frequency_accepted :
  ~ (exists e,
        Parser.parse (doc ["node n1, n2";
                           "capacitor C1 from n1 to n2 frequency=1k"])
        = Raise e)
  /\ exists c component,
       Parser.parse (doc ["node n1, n2";
                          "capacitor C1 from n1 to n2 frequency=1k"]) = Ok c
       /\ Circuit.components c !! "C1" = Some component
       /\ Component.properties component !! "frequency" = Some "1k".
Proof.
  split; [|exact capacitor_frequency_parse].
  destruct capacitor_frequency_parse as (c & _ & E & _).
  intros [e He]. rewrite E in He. discriminate.
Qed.

(** C2 (as amended): when the token loop of a component line takes up a
    [key=value] token whose key is neither a pin of the component type's
    schema nor one of the known properties, the line fails; with key and
    value both non-empty the failure is the invalid-pin-or-property error.
    [frequency] is a known property for every type, so the capacitor line
    with [frequency=1k] is accepted and records the property;
    [capacitor C1 from n1 to n2 wattage=1k] is a line that fails. *)
Theorem unknown_key_fails :
  (forall (line : string) (circuit : Circuit.t)
          (comp_type comp_name : string) (tokens : list string)
          (primary_value : option string) (pre : list string)
          (token : string) (rest : list string) (component : Component.t)
          (key value : string),
      shlex.split line = Ok (comp_type :: comp_name :: tokens) ->
      Parser.take_primary tokens = (primary_value, pre ++ token :: rest) ->
      Parser.consume (Str.lower comp_type) comp_name circuit pre
        (Component.new (Str.lower comp_type) comp_name primary_value)
      = Ok component ->
      Str.contains Parser.equals token = true ->
      Str.partition Parser.equals token = (key, value) ->
      key ∉ Parser.valid_pins (Str.lower comp_type) ->
      key ∉ KNOWN_PROPERTIES ->
      exists e,
        Parser._parse_component_line line circuit = Raise e
        /\ (key <> "" -> value <> "" ->
            e = ValueError ("Invalid pin or property '" +:+ key
                  +:+ "' for component type '" +:+ Str.lower comp_type
                  +:+ "'")))
  /\ "frequency" ∈ KNOWN_PROPERTIES
  /\ (exists c component,
        Parser.parse (doc ["node n1, n2";
                           "capacitor C1 from n1 to n2 frequency=1k"]) = Ok c
        /\ Circuit.components c !! "C1" = Some component
        /\ Component.properties component !! "frequency" = Some "1k")
  /\ Parser.parse (doc ["node n1, n2";
                        "capacitor C1 from n1 to n2 wattage=1k"])
     = Raise (ValueError
         "On line 2: Invalid pin or property 'wattage' for component type 'capacitor'").
Proof.
  split; [|split; [|split; [exact capacitor_frequency_parse|]]].
  - intros line circuit comp_type comp_name tokens primary_value pre token
           rest component key value Hsplit Hprim Hpre Hc Hp Hpin Hprop.
    unfold Parser._parse_component_line, Parser.build_component.
    rewrite Hsplit. simpl. rewrite Hprim.
    rewrite (consume_app _ _ _ _ _ _ _ _ (Nat.le_refl _) Hpre).
    destruct (consume_unknown_key (Str.lower comp_type) comp_name circuit
                token key value rest component Hc Hp Hpin Hprop)
      as (e & -> & He).
    exists e. split; [reflexivity | exact He].
  - apply mem_elem_of. reflexivity.
  - vm_compute. reflexivity.
Qed.

Lemma unknown_key_fails_witness :
  exists e,
    Parser._parse_component_line "capacitor C1 from n1 to n2 wattage=1k"
      (Circuit.mk ∅
         (<["n2" := Node.new 1 "n2"]> {[ "n1" := Node.new 0 "n1" ]})
         ∅ None 2)
    = Raise e.
Proof.
  set (circuit :=
         Circuit.mk ∅
           (<["n2" := Node.new 1 "n2"]> {[ "n1" := Node.new 0 "n1" ]})
           ∅ None 2).
  destruct (proj1 unknown_key_fails
              "capacitor C1 from n1 to n2 wattage=1k" circuit
              "capacitor" "C1" ["from"; "n1"; "to"; "n2"; "wattage=1k"]
              None ["from"; "n1"; "to"; "n2"] "wattage=1k" []
              (Component.mk "capacitor" "C1" None ∅
                 (<["to" := Node.new 1 "n2"]>
                    {[ "from" := Node.new 0 "n1" ]}))
              "wattage" "1k") as (e & He & _).
  - vm_compute. reflexivity.
  - vm_compute. reflexivity.
  - vm_compute. reflexivity.
  - vm_compute. reflexivity.
  - vm_compute. reflexivity.
  - apply mem_not_elem_of. vm_compute. reflexivity.
  - apply mem_not_elem_of. vm_compute. reflexivity.
  - exists e. exact He.
Defined.

(** ** What one line can do to the circuit *)

Section Frame.

Import Parser.

Lemma heap_ok_new : heap_ok Circuit.new.
Proof. split; intros *; simpl; rewrite lookup_empty; discriminate. Qed.

Lemma grows_refl c : grows c c.
Proof. unfold grows. split_and!; done. Qed.

Lemma grows_trans c1 c2 c3 : grows c1 c2 -> grows c2 c3 -> grows c1 c3.
Proof.
  unfold grows. intros (Ha & Hb & Hc & Hd) (Ha' & Hb' & Hc' & Hd').
  split_and!; [by etrans | by etrans | congruence | auto].
Qed.

Lemma declare_node_grows name c c' :
  Circuit.declare_node name c = Ok c' -> grows c c'.
Proof.
  unfold Circuit.declare_node.
  destruct (Circuit.nodes c !! name) eqn:E; [discriminate|].
  intros [= <-]. unfold grows. simpl. split_and!; [done | | done |].
  - apply insert_subseteq. exact E.
  - intros [Hlt Hinj]. split; simpl.
    + intros k n. rewrite lookup_insert.
      case_decide; [intros [= <-]; simpl; lia|].
      intros Hk. apply Hlt in Hk. lia.
    + intros k1 k2 n1 n2. rewrite !lookup_insert.
      repeat case_decide; subst.
      * reflexivity.
      * intros [= <-] Hk Hid. apply Hlt in Hk. simpl in Hid. lia.
      * intros Hk [= <-] Hid. apply Hlt in Hk. simpl in Hid. lia.
      * apply Hinj.
Qed.

Lemma declare_nodes_grows names : forall c c',
  declare_nodes names c = Ok c' -> grows c c'.
Proof.
  induction names as [|name names IH]; intros c c'; simpl.
  - intros [= <-]. apply grows_refl.
  - destruct (Str.is_empty (Str.strip name)); [apply IH|].
    destruct (Circuit.declare_node (Str.strip name) c) eqn:E; simpl;
      [|discriminate].
    intros H. eapply grows_trans; eauto using declare_node_grows.
Qed.

Lemma set_ground_node_grows name c c' :
  Circuit.set_ground_node name c = Ok c' -> grows c c'.
Proof.
  unfold Circuit.set_ground_node.
  destruct (Circuit.truthy _); [discriminate|].
  destruct (Circuit.nodes c !! name).
  - simpl. intros [= <-]. unfold grows. simpl. split_and!; done.
  - destruct (Circuit.declare_node name c) as [c1|] eqn:E; simpl;
      [|discriminate].
    intros [= <-]. apply declare_node_grows in E as (Ha & Hb & Hc & Hd).
    unfold grows. simpl. split_and!; [done | done | done |].
    intros H. apply Hd in H as [H1 H2]. split; simpl; assumption.
Qed.

Lemma parse_component_line_grows line c c' :
  _parse_component_line line c = Ok c' ->
  grows c c' /\ Circuit.nodes c' = Circuit.nodes c.
Proof.
  unfold _parse_component_line.
  destruct (build_component line c) as [component|]; simpl; [|discriminate].
  destruct (shorted component); [discriminate|].
  unfold Circuit.add_component.
  destruct (Circuit.components c !! Component.name component) eqn:E;
    [discriminate|].
  intros [= <-]. unfold grows. simpl. split_and!; try done.
  apply insert_subseteq. exact E.
Qed.

Lemma parse_subcircuit_block_frame name lines c c' :
  _parse_subcircuit_block name lines c = Ok c' ->
  Circuit.components c' = Circuit.components c
  /\ Circuit.nodes c' = Circuit.nodes c
  /\ Circuit.allocated c' = Circuit.allocated c
  /\ exists d, Circuit.subcircuit_definitions c'
               = <[name := d]> (Circuit.subcircuit_definitions c).
Proof.
  unfold _parse_subcircuit_block.
  destruct (collect lines [] []) as [[interface body]|]; simpl; [|discriminate].
  destruct interface; [discriminate|].
  intros [= <-]. simpl. eauto.
Qed.

(** The ways a line is processed without failure. *)
Lemma process_line_cases line st st' :
  process_line line st = Ok st' ->
  (Str.startswith line "[/subcircuit]" = true
   /\ in_subcircuit_block st = true
   /\ exists name c,
        current_subcircuit_name st = Some name
        /\ _parse_subcircuit_block name (subcircuit_lines st) (circuit st)
           = Ok c
        /\ st' = mk c false None [])
  \/ (Str.startswith line "[/subcircuit]" = false
      /\ (circuit st' = circuit st
          \/ in_subcircuit_block st = false
             /\ exists c, grows (circuit st) c /\ st' = with_circuit c st)).
Proof.
  unfold process_line.
  destruct (Str.startswith line "[/subcircuit]").
  { destruct (in_subcircuit_block st); simpl; [|discriminate].
    destruct (current_subcircuit_name st) as [name|]; [|discriminate].
    destruct (_parse_subcircuit_block _ _ _) as [c|] eqn:E; simpl;
      [|discriminate].
    intros [= <-]. left. eauto 10. }
  intros H. right. split; [reflexivity|]. revert H.
  destruct (Str.startswith line "[subcircuit").
  { destruct (in_subcircuit_block st); [discriminate|].
    destruct (Str.split_ws_1 line) as [|? [|? ?]]; try discriminate.
    intros [= <-]. auto. }
  destruct (in_subcircuit_block st) eqn:Hb; [intros [= <-]; auto|].
  destruct (_ || _); [intros [= <-]; auto|].
  destruct (shlex.split line) as [[|t0 args]|]; simpl; try discriminate.
  { intros [= <-]; auto. }
  destruct (String.eqb _ "node").
  { destruct args; [discriminate|].
    destruct (declare_nodes _ _) eqn:E; simpl; [|discriminate].
    intros [= <-]. eauto 10 using declare_nodes_grows. }
  destruct (String.eqb _ "ground").
  { destruct args as [|? [|? ?]]; try discriminate.
    destruct (Circuit.set_ground_node _ _) eqn:E; simpl; [|discriminate].
    intros [= <-]. eauto 10 using set_ground_node_grows. }
  destruct (_ || _); [|discriminate].
  destruct (_parse_component_line _ _) eqn:E; simpl; [|discriminate].
  intros [= <-]. apply parse_component_line_grows in E as [E _]. eauto 10.
Qed.

(** Every line keeps the components and the nodes, and the discipline of
    node identities. *)
Lemma process_line_keeps line st st' :
  process_line line st = Ok st' ->
  Circuit.components (circuit st) ⊆ Circuit.components (circuit st')
  /\ Circuit.nodes (circuit st) ⊆ Circuit.nodes (circuit st')
  /\ (heap_ok (circuit st) -> heap_ok (circuit st')).
Proof.
  intros H. apply process_line_cases in H
    as [(_ & _ & name & c & _ & Hb & ->)
       | (_ & [-> | (_ & c & (Ha & Hb & _ & Hd) & ->)])]; simpl.
  - apply parse_subcircuit_block_frame in Hb as (-> & Hn & Hal & _).
    rewrite Hn. split_and!; [done | done |].
    unfold heap_ok. rewrite Hn, Hal. auto.
  - split_and!; done.
  - split_and!; done.
Qed.

Lemma parse_lines_keeps lines : forall n st st',
  parse_lines n lines st = Ok st' ->
  Circuit.components (circuit st) ⊆ Circuit.components (circuit st')
  /\ Circuit.nodes (circuit st) ⊆ Circuit.nodes (circuit st')
  /\ (heap_ok (circuit st) -> heap_ok (circuit st')).
Proof.
  induction lines as [|l lines IH]; intros n st st'; simpl.
  - intros [= <-]. auto.
  - destruct (process_line (Str.strip l) st) as [st1|] eqn:E; [|discriminate].
    intros H. apply IH in H as (Ha & Hb & Hc).
    apply process_line_keeps in E as (Ha' & Hb' & Hc').
    split_and!; [by etrans | by etrans | auto].
Qed.

End Frame.

(** ** Component lines in the normal state *)

Section ComponentLine.

Import Parser.

Lemma process_line_dispatch line st t0 args :
  in_subcircuit_block st = false ->
  Str.startswith line "[/subcircuit]" = false ->
  Str.startswith line "[subcircuit" = false ->
  skipped line = false ->
  shlex.split line = Ok (t0 :: args) ->
  String.eqb (Str.lower t0) "node" = false ->
  String.eqb (Str.lower t0) "ground" = false ->
  process_line line st =
  if bool_decide (is_Some (COMPONENT_SCHEMA !! Str.lower t0))
     || bool_decide (is_Some (Circuit.subcircuit_definitions (circuit st)
                                !! Str.lower t0))
  then c <- _parse_component_line line (circuit st) ;; Ok (with_circuit c st)
  else Raise (ValueError ("Unknown command or component type '"
                            +:+ Str.lower t0 +:+ "'")).
Proof.
  intros Hb He Hs Hk Hsplit Hn Hg. unfold process_line, skipped in *.
  rewrite He, Hs, Hb, Hk, Hsplit. unfold bind at 1. cbv zeta.
  rewrite Hn, Hg. reflexivity.
Qed.


Lemma registered_lowered_name_dispatched line st t0 args d :
  in_subcircuit_block st = false ->
  Str.startswith line "[/subcircuit]" = false ->
  Str.startswith line "[subcircuit" = false ->
  skipped line = false ->
  shlex.split line = Ok (t0 :: args) ->
  String.eqb (Str.lower t0) "node" = false ->
  String.eqb (Str.lower t0) "ground" = false ->
  Circuit.subcircuit_definitions (circuit st) !! Str.lower t0 = Some d ->
  process_line line st
  = (c <- _parse_component_line line (circuit st) ;; Ok (with_circuit c st)).
Proof.
  intros Hb He Hs Hk Hsplit Hn Hg Hdefs.
  rewrite (process_line_dispatch _ _ _ _ Hb He Hs Hk Hsplit Hn Hg).
  rewrite Hdefs, (bool_decide_eq_true_2 (is_Some (Some d))) by eauto.
  rewrite orb_true_r. reflexivity.
Qed.

Lemma consume_from_to comp_type comp_name c a b N1 N2 component :
  a <> "" -> b <> "" ->
  Circuit.nodes c !! a = Some N1 ->
  Circuit.nodes c !! b = Some N2 ->
  consume comp_type comp_name c ["from"; a; "to"; b] component
  = Ok (Component.add_connection "to" N2
          (Component.add_connection "from" N1 component)).
Proof.
  intros Ha Hb H1 H2. apply is_empty_false in Ha, Hb.
  cbn [consume]. unfold Circuit.get_node.
  rewrite Ha, Hb, H1, H2. reflexivity.
Qed.

Lemma resistor_line_in_circuit c N1 N2 :
  Circuit.nodes c !! "n1" = Some N1 ->
  Circuit.nodes c !! "n2" = Some N2 ->
  Node.id N1 <> Node.id N2 ->
  Circuit.components c !! "R1" = None ->
  _parse_component_line "resistor R1 10k from n1 to n2" c
  = Ok (Circuit.mk (<["R1" := R1_component N1 N2]> (Circuit.components c))
          (Circuit.nodes c) (Circuit.subcircuit_definitions c)
          (Circuit.ground_node_name c) (Circuit.allocated c)).
Proof.
  intros H1 H2 Hid Hfresh.
  assert (Hbuild : build_component "resistor R1 10k from n1 to n2" c
                   = Ok (R1_component N1 N2)).
  { unfold build_component.
    replace (shlex.split "resistor R1 10k from n1 to n2")
      with (Ok ["resistor"; "R1"; "10k"; "from"; "n1"; "to"; "n2"])
      by (vm_compute; reflexivity).
    unfold bind.
    replace (Str.lower "resistor") with "resistor" by (vm_compute; reflexivity).
    replace (take_primary ["10k"; "from"; "n1"; "to"; "n2"])
      with (Some "10k", ["from"; "n1"; "to"; "n2"])
      by (vm_compute; reflexivity).
    cbv zeta. rewrite (consume_from_to _ _ c "n1" "n2" N1 N2) by done.
    reflexivity. }
  unfold _parse_component_line. rewrite Hbuild. unfold bind.
  destruct (shorted (R1_component N1 N2)) eqn:Hs.
  { apply shorted_iff in Hs as [_ Hsame]. exfalso. apply Hid.
    apply (Hsame "from" "to"); unfold R1_component; simpl.
    - rewrite lookup_insert_ne by discriminate. apply lookup_singleton_eq.
    - apply lookup_insert_eq. }
  unfold Circuit.add_component. simpl. rewrite Hfresh. reflexivity.
Qed.

Lemma process_resistor_line st N1 N2 :
  in_subcircuit_block st = false ->
  Circuit.nodes (circuit st) !! "n1" = Some N1 ->
  Circuit.nodes (circuit st) !! "n2" = Some N2 ->
  Node.id N1 <> Node.id N2 ->
  Circuit.components (circuit st) !! "R1" = None ->
  exists st',
    process_line "resistor R1 10k from n1 to n2" st = Ok st'
    /\ in_subcircuit_block st' = false
    /\ Circuit.components (circuit st') !! "R1" = Some (R1_component N1 N2)
    /\ Circuit.nodes (circuit st') = Circuit.nodes (circuit st).
Proof.
  intros Hb H1 H2 Hid Hfresh.
  rewrite (process_line_dispatch _ st "resistor"
             ["R1"; "10k"; "from"; "n1"; "to"; "n2"]);
    try (vm_compute; reflexivity); try exact Hb.
  replace (bool_decide (is_Some (COMPONENT_SCHEMA !! Str.lower "resistor")))
    with true by (vm_compute; reflexivity).
  rewrite orb_true_l.
  rewrite (resistor_line_in_circuit _ N1 N2) by assumption.
  eexists. split; [reflexivity|]. simpl.
  split; [exact Hb|]. split; [apply lookup_insert_eq | reflexivity].
Qed.

End ComponentLine.

(** C1, the claim as stated fails: a document that declares [n1] and [n2]
    and then contains the component line is rejected when the name [R1] is
    already taken. *)
Lemma duplicate_R1_rejected :
  Parser.parse (doc ["node n1, n2";
                     "resistor R1 1k from n1 to n2";
                     "resistor R1 10k from n1 to n2"])
  = Raise (ValueError "On line 3: Component name 'R1' already exists.").
Proof. vm_compute. reflexivity. Qed.

(** C1 (as amended): let the lines before the component line
    [resistor R1 10k from n1 to n2] be processed without failure, ending
    outside a subcircuit block with nodes [n1] and [n2] declared and no
    component named [R1].  Then the line is processed without failure and
    the Circuit holds under [R1] a resistor named [R1] with primary value
    [10k] whose pin [from] is the Node registered under [n1] and whose pin
    [to] is the Node registered under [n2]; when the line is the last one
    parsing succeeds, and whenever parsing succeeds the returned Circuit
    holds that component and those Nodes. *)
Theorem resistor_line_accepted
  (text : string) (pre post : list string) (l : string) (st : Parser.locals) :
  Str.split Str.newline (Str.strip text) = pre ++ l :: post ->
  Str.strip l = "resistor R1 10k from n1 to n2" ->
  Parser.parse_lines 1 pre Parser.init = Ok st ->
  Parser.in_subcircuit_block st = false ->
  is_Some (Circuit.nodes (Parser.circuit st) !! "n1") ->
  is_Some (Circuit.nodes (Parser.circuit st) !! "n2") ->
  Circuit.components (Parser.circuit st) !! "R1" = None ->
  exists (N1 N2 : Node.t) (st' : Parser.locals),
    Circuit.nodes (Parser.circuit st) !! "n1" = Some N1
    /\ Circuit.nodes (Parser.circuit st) !! "n2" = Some N2
    /\ Parser.parse_lines 1 (pre ++ [l]) Parser.init = Ok st'
    /\ Circuit.components (Parser.circuit st') !! "R1"
       = Some (Component.mk "resistor" "R1" (Some "10k") ∅
                 (<["to" := N2]> {[ "from" := N1 ]}))
    /\ (post = [] -> Parser.parse text = Ok (Parser.circuit st'))
    /\ (forall c, Parser.parse text = Ok c ->
          Circuit.components c !! "R1"
          = Some (Component.mk "resistor" "R1" (Some "10k") ∅
                    (<["to" := N2]> {[ "from" := N1 ]}))
          /\ Circuit.nodes c !! "n1" = Some N1
          /\ Circuit.nodes c !! "n2" = Some N2).
Proof.
  intros Hsplit Hl Hpre Hb [N1 H1] [N2 H2] Hfresh.
  destruct (parse_lines_keeps _ _ _ _ Hpre) as (_ & _ & Hheap).
  specialize (Hheap heap_ok_new) as [_ Hinj].
  assert (Hid : Node.id N1 <> Node.id N2).
  { intros Heq. specialize (Hinj _ _ _ _ H1 H2 Heq). discriminate. }
  destruct (process_resistor_line st N1 N2 Hb H1 H2 Hid Hfresh)
    as (st' & Hstep & Hb' & HR1 & Hnodes).
  assert (Hthrough : Parser.parse_lines 1 (pre ++ [l]) Parser.init = Ok st').
  { rewrite parse_lines_app, Hpre. simpl. rewrite Hl, Hstep. reflexivity. }
  exists N1, N2, st'. split_and!; try assumption.
  - intros ->. unfold Parser.parse, Parser.parse_from_lines.
    rewrite Hsplit, Hthrough. simpl. rewrite Hb'. reflexivity.
  - intros c. unfold Parser.parse, Parser.parse_from_lines.
    rewrite Hsplit. replace (pre ++ l :: post) with ((pre ++ [l]) ++ post)
      by (rewrite <- app_assoc; reflexivity).
    rewrite parse_lines_app, Hthrough.
    destruct (Parser.parse_lines _ post st') as [st''|] eqn:Hpost; simpl;
      [|discriminate].
    destruct (Parser.in_subcircuit_block st''); [discriminate|].
    intros [= <-].
    destruct (parse_lines_keeps _ _ _ _ Hpost) as (Hc & Hn & _).
    rewrite <- Hnodes in H1, H2.
    split_and!; eapply lookup_weaken; eassumption.
Qed.

Lemma resistor_line_accepted_witness :
  exists c,
    Parser.parse (doc ["node n1, n2"; "resistor R1 10k from n1 to n2"]) = Ok c
    /\ is_Some (Circuit.components c !! "R1").
Proof.
  destruct (resistor_line_accepted
              (doc ["node n1, n2"; "resistor R1 10k from n1 to n2"])
              ["node n1, n2"] [] "resistor R1 10k from n1 to n2"
              (Parser.mk
                 (Circuit.mk ∅
                    (<["n2" := Node.new 1 "n2"]> {[ "n1" := Node.new 0 "n1" ]})
                    ∅ None 2)
                 false None []))
    as (N1 & N2 & st' & _ & _ & _ & HR1 & Hlast & _).
  - vm_compute. reflexivity.
  - vm_compute. reflexivity.
  - vm_compute. reflexivity.
  - reflexivity.
  - vm_compute. eexists. reflexivity.
  - vm_compute. eexists. reflexivity.
  - vm_compute. reflexivity.
  - exists (Parser.circuit st'). split; [apply Hlast; reflexivity|].
    rewrite HR1. eexists. reflexivity.
Defined.

(** ** Subcircuit blocks *)

Section Blocks.

Import Parser.

Lemma expose_not_skipped line :
  Str.startswith line "expose" = true -> skipped line = false.
Proof.
  unfold skipped. destruct line as [|c line]; [discriminate|]. simpl.
  intros H. apply startswith_cons_inv in H as [<- _]. reflexivity.
Qed.

Lemma collect_app l1 : forall l2 interface body,
  collect (l1 ++ l2) interface body =
  match collect l1 interface body with
  | Ok (interface', body') => collect l2 interface' body'
  | Raise e => Raise e
  end.
Proof.
  induction l1 as [|l l1 IH]; intros l2 interface body; [reflexivity|].
  simpl. destruct (_ || _); [apply IH|].
  destruct (Str.startswith (Str.strip l) "expose"); [|apply IH].
  destruct (Str.split_ws_1 (Str.strip l)) as [|? [|? ?]]; try reflexivity.
  destruct (expose_pins _ _); simpl; [apply IH | reflexivity].
Qed.

(** Lines that are not [expose] lines leave the interface as it is. *)
Lemma collect_without_expose lines : forall interface body,
  Forall (fun l => is_expose_line l = false) lines ->
  exists body', collect lines interface body = Ok (interface, body').
Proof.
  unfold is_expose_line.
  induction lines as [|l lines IH]; intros interface body Hall; simpl.
  - eauto.
  - inversion Hall as [|? ? Hl Hrest]; subst. rewrite Hl.
    destruct (_ || _); auto.
Qed.

(** A block with one [expose] line that yields the names [names]. *)
Lemma block_with_one_expose name pre l post c names :
  Forall (fun l => is_expose_line l = false) pre ->
  Forall (fun l => is_expose_line l = false) post ->
  (forall interface body,
      collect [l] interface body = Ok (interface ++ names, body)) ->
  names <> [] ->
  exists body_text,
    _parse_subcircuit_block name (pre ++ l :: post) c
    = Ok (Circuit.mk (Circuit.components c) (Circuit.nodes c)
            (<[name := SubcircuitDefinition.mk name names body_text]>
               (Circuit.subcircuit_definitions c))
            (Circuit.ground_node_name c) (Circuit.allocated c)).
Proof.
  intros Hpre Hpost Hl Hne. unfold _parse_subcircuit_block.
  destruct (collect_without_expose pre [] [] Hpre) as (b1 & E1).
  destruct (collect_without_expose post names b1 Hpost) as (b2 & E2).
  rewrite collect_app, E1.
  change (l :: post) with ([l] ++ post). rewrite collect_app, Hl. simpl app.
  rewrite E2. simpl. destruct names; [congruence|]. eauto.
Qed.

Lemma collect_expose_a_b l interface body :
  Str.strip l = "expose a,b" ->
  collect [l] interface body = Ok (interface ++ ["a"; "b"], body).
Proof.
  intros Hl. cbn [collect]. rewrite Hl.
  replace (Str.is_empty "expose a,b" || Str.startswith "expose a,b" "#")
    with false by (vm_compute; reflexivity).
  replace (Str.startswith "expose a,b" "expose")
    with true by (vm_compute; reflexivity).
  replace (Str.split_ws_1 "expose a,b") with ["expose"; "a,b"]
    by (vm_compute; reflexivity).
  replace (map Str.strip (Str.split comma "a,b")) with ["a"; "b"]
    by (vm_compute; reflexivity).
  replace (expose_pins ["a"; "b"] interface)
    with (Ok ((interface ++ ["a"]) ++ ["b"])) by (vm_compute; reflexivity).
  cbn [bind collect]. rewrite <- app_assoc. reflexivity.
Qed.

Lemma collect_expose_pub l interface body :
  Str.strip l = "expose pub=internal" ->
  collect [l] interface body = Ok (interface ++ ["pub"], body).
Proof.
  intros Hl. cbn [collect]. rewrite Hl.
  replace (Str.is_empty "expose pub=internal"
           || Str.startswith "expose pub=internal" "#")
    with false by (vm_compute; reflexivity).
  replace (Str.startswith "expose pub=internal" "expose")
    with true by (vm_compute; reflexivity).
  replace (Str.split_ws_1 "expose pub=internal")
    with ["expose"; "pub=internal"] by (vm_compute; reflexivity).
  replace (map Str.strip (Str.split comma "pub=internal"))
    with ["pub=internal"] by (vm_compute; reflexivity).
  replace (expose_pins ["pub=internal"] interface)
    with (Ok (interface ++ ["pub"])) by (vm_compute; reflexivity).
  reflexivity.
Qed.

End Blocks.

(** C6, the claim as stated fails: a block that contains [expose a,b] and a
    further [expose] line has a longer interface. *)
Lemma two_expose_lines_accumulate :
  exists c d,
    Parser._parse_subcircuit_block "S" ["expose a,b"; "expose c"] Circuit.new
    = Ok c
    /\ Circuit.subcircuit_definitions c !! "S" = Some d
    /\ SubcircuitDefinition.interface d = ["a"; "b"; "c"]
    /\ SubcircuitDefinition.interface d <> ["a"; "b"].
Proof.
  destruct (Parser._parse_subcircuit_block "S" ["expose a,b"; "expose c"]
              Circuit.new) as [c|] eqn:E; vm_compute in E; [|discriminate].
  injection E as <-. eexists _, _. split; [reflexivity|].
  split; [vm_compute; reflexivity|]. split; [reflexivity | discriminate].
Qed.

(** C6 (as amended): a block none of whose lines begins with [expose]
    (after trimming) fails; a block whose only such line is [expose a,b]
    yields a definition with interface exactly [a; b]; a block whose only
    such line is [expose pub=internal] yields one with interface exactly
    [pub]. *)
Theorem block_interface :
  (forall (name : string) (lines : list string) (c : Circuit.t),
      Forall (fun l => is_expose_line l = false) lines ->
      Parser._parse_subcircuit_block name lines c
      = Raise (ValueError ("Subcircuit '" +:+ name
                 +:+ "' has no 'expose' line defining its interface.")))
  /\
  (forall (name : string) (pre post : list string) (l : string)
          (c : Circuit.t),
      Forall (fun l => is_expose_line l = false) pre ->
      Forall (fun l => is_expose_line l = false) post ->
      Str.strip l = "expose a,b" ->
      exists c' d,
        Parser._parse_subcircuit_block name (pre ++ l :: post) c = Ok c'
        /\ Circuit.subcircuit_definitions c' !! name = Some d
        /\ SubcircuitDefinition.name d = name
        /\ SubcircuitDefinition.interface d = ["a"; "b"])
  /\
  (forall (name : string) (pre post : list string) (l : string)
          (c : Circuit.t),
      Forall (fun l => is_expose_line l = false) pre ->
      Forall (fun l => is_expose_line l = false) post ->
      Str.strip l = "expose pub=internal" ->
      exists c' d,
        Parser._parse_subcircuit_block name (pre ++ l :: post) c = Ok c'
        /\ Circuit.subcircuit_definitions c' !! name = Some d
        /\ SubcircuitDefinition.name d = name
        /\ SubcircuitDefinition.interface d = ["pub"]).
Proof.
  split_and!.
  - intros name lines c Hall. unfold Parser._parse_subcircuit_block.
    destruct (collect_without_expose lines [] [] Hall) as (body & ->).
    reflexivity.
  - intros name pre post l c Hpre Hpost Hl.
    destruct (block_with_one_expose name pre l post c ["a"; "b"] Hpre Hpost)
      as (body_text & ->).
    + intros. apply collect_expose_a_b, Hl.
    + discriminate.
    + eexists _, _. split; [reflexivity|]. simpl.
      split; [apply lookup_insert_eq|]. split; reflexivity.
  - intros name pre post l c Hpre Hpost Hl.
    destruct (block_with_one_expose name pre l post c ["pub"] Hpre Hpost)
      as (body_text & ->).
    + intros. apply collect_expose_pub, Hl.
    + discriminate.
    + eexists _, _. split; [reflexivity|]. simpl.
      split; [apply lookup_insert_eq|]. split; reflexivity.
Qed.

Lemma block_interface_witness :
  exists c d,
    Parser._parse_subcircuit_block "Divider"
      (["# a voltage divider"; "node mid"]
         ++ "  expose a,b" :: ["resistor R1 1k from a to mid"]) Circuit.new
    = Ok c
    /\ Circuit.subcircuit_definitions c !! "Divider" = Some d
    /\ SubcircuitDefinition.interface d = ["a"; "b"].
Proof.
  destruct (proj1 (proj2 block_interface) "Divider"
              ["# a voltage divider"; "node mid"]
              ["resistor R1 1k from a to mid"] "  expose a,b" Circuit.new)
    as (c & d & Hc & Hd & _ & Hi).
  - repeat constructor.
  - repeat constructor.
  - vm_compute. reflexivity.
  - exists c, d. split_and!; assumption.
Defined.

(** ** Blocks in the driver *)

Section DriverBlocks.

Import Parser.

(** Inside a block, lines that are not markers are buffered trimmed. *)
Lemma parse_lines_buffer body : forall n c name buffer,
  Forall (fun l => is_marker l = false) body ->
  parse_lines n body (mk c true (Some name) buffer)
  = Ok (mk c true (Some name) (buffer ++ map Str.strip body)).
Proof.
  unfold is_marker.
  induction body as [|l body IH]; intros n c name buffer Hall; simpl.
  - rewrite app_nil_r. reflexivity.
  - inversion Hall as [|? ? Hl Hrest]; subst.
    apply orb_false_elim in Hl as [He Hs].
    unfold process_line. rewrite He, Hs. simpl.
    rewrite IH by exact Hrest. rewrite <- app_assoc. reflexivity.
Qed.

Lemma process_line_close line c name buffer :
  Str.startswith line "[/subcircuit]" = true ->
  process_line line (mk c true (Some name) buffer)
  = (c' <- _parse_subcircuit_block name buffer c ;; Ok (mk c' false None [])).
Proof. intros H. unfold process_line. rewrite H. reflexivity. Qed.

Lemma rstrip_name_bracket name :
  all_chars name_char name = true ->
  Str.rstrip_with (fun c => Str.mem_char c " ]") (name +:+ "]") = name.
Proof.
  induction name as [|c name IH]; [reflexivity|].
  cbn [all_chars]. intros H. apply andb_prop in H as [Hc Hrest].
  change (String c name +:+ "]") with (String c (name +:+ "]")).
  cbn [Str.rstrip_with]. rewrite (IH Hrest).
  unfold name_char in Hc. apply andb_prop in Hc as [_ Hc].
  apply negb_true_iff in Hc. rewrite Hc. reflexivity.
Qed.

(** The marker [[subcircuit NAME]] opens a block remembered under [NAME]. *)
Lemma block_header_opens name st :
  in_subcircuit_block st = false ->
  name <> "" ->
  all_chars name_char name = true ->
  process_line ("[subcircuit " +:+ name +:+ "]") st
  = Ok (mk (circuit st) true (Some name) []).
Proof.
  intros Hb Hne Hall. destruct name as [|c name]; [congruence|].
  pose proof Hall as Hall'. cbn [all_chars] in Hall'.
  apply andb_prop in Hall' as [Hc _]. unfold name_char in Hc.
  apply andb_prop in Hc as [Hsp Hbr]. apply negb_true_iff in Hsp, Hbr.
  unfold process_line.
  replace (Str.startswith ("[subcircuit " +:+ String c name +:+ "]")
             "[/subcircuit]") with false by reflexivity.
  replace (Str.startswith ("[subcircuit " +:+ String c name +:+ "]")
             "[subcircuit") with true by reflexivity.
  rewrite Hb.
  assert (Hparts : Str.split_ws_1 ("[subcircuit " +:+ String c name +:+ "]")
                   = ["[subcircuit"; String c name +:+ "]"]).
  { unfold Str.split_ws_1.
    change (String c name +:+ "]") with (String c (name +:+ "]")).
    generalize (name +:+ "]"). intros tail.
    replace (Str.lstrip_with Str.isspace ("[subcircuit " +:+ String c tail))
      with ("[subcircuit " +:+ String c tail) by (vm_compute; reflexivity).
    replace (Str.span_word ("[subcircuit " +:+ String c tail))
      with ("[subcircuit", String " " (String c tail))
      by (vm_compute; reflexivity).
    replace (Str.lstrip_with Str.isspace (String " " (String c tail)))
      with (String c tail) by (cbn [Str.lstrip_with]; rewrite Hsp; reflexivity).
    reflexivity. }
  rewrite Hparts. do 3 f_equal.
  unfold Str.strip_chars, Str.strip_with.
  change (String c name +:+ "]") with (String c (name +:+ "]")).
  cbn [Str.lstrip_with]. rewrite Hbr.
  apply (rstrip_name_bracket (String c name) Hall).
Qed.

(** The definition under [S] changes only when a block named [S] is
    closed. *)
Lemma parse_lines_definition_kept S lines : forall n st st',
  ~ closes_block_named S lines st ->
  parse_lines n lines st = Ok st' ->
  Circuit.subcircuit_definitions (circuit st') !! S
  = Circuit.subcircuit_definitions (circuit st) !! S.
Proof.
  induction lines as [|l lines IH]; intros n st st' Hno; simpl.
  - intros [= <-]. reflexivity.
  - simpl in Hno.
    destruct (process_line (Str.strip l) st) as [st1|] eqn:E; [|discriminate].
    intros H. rewrite (IH _ _ _ (fun Hc => Hno (or_intror Hc)) H).
    apply process_line_cases in E
      as [(He & _ & name & c & Hname & Hblock & ->)
         | (_ & [-> | (_ & c & (_ & _ & Hd & _) & ->)])].
    + apply parse_subcircuit_block_frame in Hblock as (_ & _ & _ & d & Hd).
      simpl. rewrite Hd. apply lookup_insert_ne. intros ->.
      apply Hno. left. split; assumption.
    + reflexivity.
    + simpl. rewrite Hd. reflexivity.
Qed.

(** Lines without a closing marker close no block. *)
Lemma no_closing_marker S lines : forall st,
  Forall (fun l => Str.startswith (Str.strip l) "[/subcircuit]" = false) lines ->
  ~ closes_block_named S lines st.
Proof.
  induction lines as [|l lines IH]; intros st Hall; simpl; [tauto|].
  inversion Hall as [|? ? Hl Hrest]; subst.
  intros [[He _] | Hc]; [congruence|].
  destruct (process_line (Str.strip l) st); [|exact Hc].
  exact (IH _ Hrest Hc).
Qed.

End DriverBlocks.

(** C9: when a subcircuit named [S] is already registered and a further
    complete block named [S] with a valid [expose] interface follows,
    processing does not fail at the repeated name; the new definition takes
    the place of the old one, and, no block named [S] being closed after
    it, the returned Circuit holds the new definition under [S]. *)
Theorem redefinition_replaces
  (text : string) (pre body post : list string) (header closing : string)
  (st : Parser.locals) (S : string) (old : SubcircuitDefinition.t)
  (interface body_lines : list string) :
  Str.split Str.newline (Str.strip text)
  = pre ++ header :: body ++ closing :: post ->
  Parser.parse_lines 1 pre Parser.init = Ok st ->
  Circuit.subcircuit_definitions (Parser.circuit st) !! S = Some old ->
  Parser.process_line (Str.strip header) st
  = Ok (Parser.mk (Parser.circuit st) true (Some S) []) ->
  Forall (fun l => is_marker l = false) body ->
  Str.startswith (Str.strip closing) "[/subcircuit]" = true ->
  Parser.collect (map Str.strip body) [] [] = Ok (interface, body_lines) ->
  interface <> [] ->
  (forall st1,
      Parser.parse_lines 1 (pre ++ header :: body ++ [closing]) Parser.init
      = Ok st1 ->
      ~ closes_block_named S post st1) ->
  (exists st',
      Parser.parse_lines 1 (pre ++ header :: body ++ [closing]) Parser.init
      = Ok st'
      /\ Parser.in_subcircuit_block st' = false
      /\ Circuit.subcircuit_definitions (Parser.circuit st')
         = <[S := SubcircuitDefinition.mk S interface
                    (Str.join Parser.nl body_lines)]>
             (Circuit.subcircuit_definitions (Parser.circuit st)))
  /\ (forall c, Parser.parse text = Ok c ->
        Circuit.subcircuit_definitions c !! S
        = Some (SubcircuitDefinition.mk S interface
                  (Str.join Parser.nl body_lines))).
Proof.
  intros Hsplit Hpre Hold Hopen Hbody Hclose Hcollect Hne Hpost.
  set (new := SubcircuitDefinition.mk S interface
                (Str.join Parser.nl body_lines)).
  set (c' := Circuit.mk (Circuit.components (Parser.circuit st))
               (Circuit.nodes (Parser.circuit st))
               (<[S := new]>
                  (Circuit.subcircuit_definitions (Parser.circuit st)))
               (Circuit.ground_node_name (Parser.circuit st))
               (Circuit.allocated (Parser.circuit st))).
  assert (Hblock : Parser._parse_subcircuit_block S (map Str.strip body)
                     (Parser.circuit st) = Ok c').
  { unfold Parser._parse_subcircuit_block. rewrite Hcollect. simpl.
    destruct interface; [congruence | reflexivity]. }
  assert (Hthrough :
    Parser.parse_lines 1 (pre ++ header :: body ++ [closing]) Parser.init
    = Ok (Parser.mk c' false None [])).
  { rewrite parse_lines_app, Hpre. simpl. rewrite Hopen.
    rewrite parse_lines_app, parse_lines_buffer by exact Hbody. simpl.
    rewrite (process_line_close _ _ _ _ Hclose), Hblock. reflexivity. }
  split.
  - exists (Parser.mk c' false None []). split_and!; done.
  - intros c. unfold Parser.parse, Parser.parse_from_lines. rewrite Hsplit.
    replace (pre ++ header :: body ++ closing :: post)
      with ((pre ++ header :: body ++ [closing]) ++ post)
      by (rewrite <- !app_assoc; simpl; rewrite <- app_assoc; reflexivity).
    rewrite parse_lines_app, Hthrough.
    destruct (Parser.parse_lines _ post _) as [st''|] eqn:E; simpl;
      [|discriminate].
    destruct (Parser.in_subcircuit_block st''); [discriminate|].
    intros [= <-].
    rewrite (parse_lines_definition_kept S _ _ _ _ (Hpost _ Hthrough) E).
    simpl. apply lookup_insert_eq.
Qed.

Lemma redefinition_replaces_witness :
  exists c,
    Parser.parse (doc ["[subcircuit Amp]"; "expose in"; "[/subcircuit]";
                       "[subcircuit Amp]"; "node mid"; "expose in, out=mid";
                       "[/subcircuit]";
                       "[subcircuit Buf]"; "expose p"; "[/subcircuit]"]) = Ok c
    /\ Circuit.subcircuit_definitions c !! "Amp"
       = Some (SubcircuitDefinition.mk "Amp" ["in"; "out"] "node mid").
Proof.
  destruct (redefinition_replaces
              (doc ["[subcircuit Amp]"; "expose in"; "[/subcircuit]";
                    "[subcircuit Amp]"; "node mid"; "expose in, out=mid";
                    "[/subcircuit]";
                    "[subcircuit Buf]"; "expose p"; "[/subcircuit]"])
              ["[subcircuit Amp]"; "expose in"; "[/subcircuit]"]
              ["node mid"; "expose in, out=mid"]
              ["[subcircuit Buf]"; "expose p"; "[/subcircuit]"]
              "[subcircuit Amp]" "[/subcircuit]"
              (Parser.mk
                 (Circuit.mk ∅ ∅
                    {[ "Amp" := SubcircuitDefinition.mk "Amp" ["in"] "" ]}
                    None 0)
                 false None [])
              "Amp" (SubcircuitDefinition.mk "Amp" ["in"] "")
              ["in"; "out"] ["node mid"]) as [_ Hret].
  - vm_compute. reflexivity.
  - vm_compute. reflexivity.
  - vm_compute. reflexivity.
  - vm_compute. reflexivity.
  - repeat constructor.
  - vm_compute. reflexivity.
  - vm_compute. reflexivity.
  - discriminate.
  - intros st1 H1. vm_compute in H1. injection H1 as <-. vm_compute.
    intros [[_ H] | [[_ H] | [[_ H] | []]]]; discriminate.
  - destruct (Parser.parse
                (doc ["[subcircuit Amp]"; "expose in"; "[/subcircuit]";
                      "[subcircuit Amp]"; "node mid"; "expose in, out=mid";
                      "[/subcircuit]";
                      "[subcircuit Buf]"; "expose p"; "[/subcircuit]"]))
      as [c|e] eqn:E.
    + exists c. split; [reflexivity | apply Hret; reflexivity].
    + vm_compute in E. discriminate.
Defined.

(** ** Ground *)

Section Ground.

Lemma set_ground_node_first name c :
  Circuit.ground_node_name c = None ->
  exists c', Circuit.set_ground_node name c = Ok c'
             /\ Circuit.ground_node_name c' = Some name
             /\ is_Some (Circuit.nodes c' !! name).
Proof.
  intros Hg. unfold Circuit.set_ground_node. rewrite Hg. simpl.
  destruct (Circuit.nodes c !! name) eqn:E; simpl.
  - eexists. split; [reflexivity|]. simpl. rewrite E. eauto.
  - unfold Circuit.declare_node. rewrite E. simpl.
    eexists. split; [reflexivity|]. simpl.
    rewrite lookup_insert_eq. eauto.
Qed.

Lemma set_ground_node_again name g c :
  Circuit.ground_node_name c = Some g -> g <> "" ->
  Circuit.set_ground_node name c
  = Raise (ValueError "Ground node has already been set.").
Proof.
  intros Hg Hne. unfold Circuit.set_ground_node. rewrite Hg. simpl.
  apply is_empty_false in Hne. rewrite Hne. reflexivity.
Qed.

End Ground.

(** C4, the code at the failing input: after a first [ground] line naming
    the empty string, a second [ground] line is accepted and replaces the
    ground node. *)
Theorem ground_set_twice :
  exists c,
    Parser.parse (doc ["ground ''"; "ground gnd"]) = Ok c
    /\ Circuit.ground_node_name c = Some "gnd"
    /\ is_Some (Circuit.nodes c !! "")
    /\ is_Some (Circuit.nodes c !! "gnd").
Proof.
  destruct (Parser.parse (doc ["ground ''"; "ground gnd"])) as [c|] eqn:E;
    vm_compute in E; [|discriminate].
  injection E as <-. eexists. split; [reflexivity|].
  split_and!; vm_compute; eauto.
Qed.

(** C7, the code at the failing input: a subcircuit registered as [Amp]
    is not found when a later line names it, because the first token is
    lowered before the lookup; the same document with the name [amp] is
    accepted. *)
Theorem capitalised_subcircuit_unknown :
  Parser.parse (doc ["[subcircuit Amp]"; "expose a, b"; "[/subcircuit]";
                     "node n1, n2"; "Amp X1 from n1 to n2"])
  = Raise (ValueError "On line 5: Unknown command or component type 'amp'")
  /\ exists c x,
       Parser.parse (doc ["[subcircuit amp]"; "expose a, b"; "[/subcircuit]";
                          "node n1, n2"; "amp X1 from n1 to n2"]) = Ok c
       /\ Circuit.components c !! "X1" = Some x
       /\ Component.component_type x = "amp".
Proof.
  split; [vm_compute; reflexivity|].
  destruct (Parser.parse (doc ["[subcircuit amp]"; "expose a, b";
                               "[/subcircuit]"; "node n1, n2";
                               "amp X1 from n1 to n2"])) as [c|] eqn:E;
    vm_compute in E; [|discriminate].
  injection E as <-. eexists _, _. split; [reflexivity|].
  split; vm_compute; reflexivity.
Qed.

(** C8, the code at the failing input: the marker [[subcircuit ]] carries
    no name, yet the block is entered with the empty string as its name and
    the definition is registered under it. *)
Theorem nameless_block_entered :
  Parser.process_line "[subcircuit ]" Parser.init
  = Ok (Parser.mk Circuit.new true (Some "") [])
  /\ exists c d,
       Parser.parse (doc ["[subcircuit ]"; "expose a"; "[/subcircuit]"]) = Ok c
       /\ Circuit.subcircuit_definitions c !! "" = Some d
       /\ SubcircuitDefinition.name d = "".
Proof.
  split; [vm_compute; reflexivity|].
  destruct (Parser.parse (doc ["[subcircuit ]"; "expose a"; "[/subcircuit]"]))
    as [c|] eqn:E; vm_compute in E; [|discriminate].
  injection E as <-. eexists _, _. split; [reflexivity|].
  split; vm_compute; reflexivity.
Qed.

(* ================================================================== *)
(** * Further properties of the parser *)

(** ** Trimming and lowering are idempotent *)

Section StrIdempotent.

Lemma lstrip_idem p s :
  Str.lstrip_with p (Str.lstrip_with p s) = Str.lstrip_with p s.
Proof.
  induction s as [|c s IH]; [reflexivity|]. simpl.
  destruct (p c) eqn:Hc; [exact IH|]. simpl. rewrite Hc. reflexivity.
Qed.

Lemma strip_idem s : Str.strip (Str.strip s) = Str.strip s.
Proof.
  unfold Str.strip, Str.strip_with.
  rewrite (lstrip_rstrip_comm _ (Str.lstrip_with Str.isspace s)).
  rewrite lstrip_idem. apply rstrip_idem.
Qed.

Lemma lower_char_idem c : Str.lower_char (Str.lower_char c) = Str.lower_char c.
Proof. destruct c as [[] [] [] [] [] [] [] []]; reflexivity. Qed.

Lemma lower_idem s : Str.lower (Str.lower s) = Str.lower s.
Proof.
  induction s as [|c s IH]; [reflexivity|]. simpl.
  rewrite lower_char_idem, IH. reflexivity.
Qed.

End StrIdempotent.

(** ** The schema *)

Section Schema.

Import Parser.

Lemma schema_pins comp_type pins :
  COMPONENT_SCHEMA !! comp_type = Some pins -> pins = ["from"; "to"].
Proof.
  unfold COMPONENT_SCHEMA. intros H. apply elem_of_list_to_map_2 in H.
  repeat (apply elem_of_cons in H as [[= _ <-] | H]; [reflexivity|]).
  inversion H.
Qed.

Lemma valid_pins_from_to comp_type pin :
  pin ∈ valid_pins comp_type -> pin = "from" \/ pin = "to".
Proof.
  unfold valid_pins.
  destruct (COMPONENT_SCHEMA !! comp_type) as [pins|] eqn:E; simpl.
  - rewrite (schema_pins _ _ E). intros H.
    apply elem_of_cons in H as [-> | H]; [auto|].
    apply elem_of_cons in H as [-> | H]; [auto | inversion H].
  - intros H. inversion H.
Qed.

End Schema.

(** ** What a component line builds *)

Section BuildComponent.

Import Parser.

Local Arguments mem : simpl never.
Local Arguments valid_pins : simpl never.

Lemma token_loop_step_refl c x : token_loop_step c x x.
Proof. unfold token_loop_step. split_and!; auto. Qed.

Lemma token_loop_step_trans c x1 x2 x3 :
  token_loop_step c x1 x2 -> token_loop_step c x2 x3 ->
  token_loop_step c x1 x3.
Proof.
  intros (Ht & Hn & Hv & Hc & Hp) (Ht' & Hn' & Hv' & Hc' & Hp').
  unfold token_loop_step. split_and!; try congruence.
  - intros pin n H. apply Hc' in H as [H | H]; [auto | right; exact H].
  - intros key value H. apply Hp' in H as [H | H]; [auto | right; exact H].
Qed.

Lemma token_loop_step_connection c x pin k n :
  pin = "from" \/ pin = "to" ->
  Circuit.nodes c !! k = Some n ->
  token_loop_step c x (Component.add_connection pin n x).
Proof.
  intros Hpin Hk. unfold token_loop_step. simpl. split_and!; auto.
  intros pin' n'. rewrite lookup_insert. case_decide; [|auto].
  intros [= <-]. subst. right. eauto.
Qed.

Lemma token_loop_step_property c x key value :
  key ∈ KNOWN_PROPERTIES -> value <> "" ->
  token_loop_step c x (Component.add_property key value x).
Proof.
  intros Hkey Hv. unfold token_loop_step. simpl. split_and!; auto.
  intros key' value'. rewrite lookup_insert. case_decide; [|auto].
  intros [= <-]. subst. right. auto.
Qed.

Lemma get_node_Ok name c n :
  Circuit.get_node name c = Ok n -> Circuit.nodes c !! name = Some n.
Proof.
  unfold Circuit.get_node. destruct (Circuit.nodes c !! name); congruence.
Qed.

Lemma consume_step comp_type comp_name c : forall n tokens x x',
  length tokens <= n ->
  consume comp_type comp_name c tokens x = Ok x' ->
  token_loop_step c x x'.
Proof.
  induction n as [|n IH]; intros tokens x x' Hlen.
  { destruct tokens; simpl in *; [|lia]. intros [= <-].
    apply token_loop_step_refl. }
  destruct tokens as [|token tokens];
    [intros [= <-]; apply token_loop_step_refl|].
  simpl in Hlen. simpl.
  destruct (String.eqb token "from").
  - destruct tokens as [|a [|b [|d tokens']]]; try discriminate. simpl in *.
    destruct (Str.is_empty a); [discriminate|].
    destruct (Circuit.get_node a c) as [n1|] eqn:E1; [|discriminate].
    destruct (negb (String.eqb b "to")); [discriminate|].
    destruct (Str.is_empty d); [discriminate|].
    destruct (Circuit.get_node d c) as [n2|] eqn:E2; [|discriminate].
    intros H. apply IH in H; [|lia].
    apply get_node_Ok in E1, E2.
    eapply token_loop_step_trans; [|exact H].
    eapply token_loop_step_trans;
      eapply token_loop_step_connection; eauto.
  - destruct (Str.contains equals token); [|discriminate].
    destruct (Str.partition equals token) as [key value].
    destruct (Str.is_empty key); [discriminate|].
    destruct (Str.is_empty value) eqn:Hv; [discriminate|].
    destruct (mem key (valid_pins comp_type)) eqn:Hpin.
    { destruct (Circuit.get_node value c) as [n1|] eqn:E1; [|discriminate].
      intros H. apply IH in H; [|lia].
      apply get_node_Ok in E1. apply mem_elem_of, valid_pins_from_to in Hpin.
      eapply token_loop_step_trans; [|exact H].
      eapply token_loop_step_connection; eauto. }
    destruct (mem key KNOWN_PROPERTIES) eqn:Hprop; [|discriminate].
    intros H. apply IH in H; [|lia].
    apply mem_elem_of in Hprop. apply is_empty_false in Hv.
    eapply token_loop_step_trans; [|exact H].
    apply token_loop_step_property; assumption.
Qed.

(** The component a line builds: its type is the lowered first token, its
    name the second token. *)
Lemma build_component_Ok line c x :
  build_component line c = Ok x ->
  exists comp_type comp_name tokens,
    shlex.split line = Ok (comp_type :: comp_name :: tokens)
    /\ Component.component_type x = Str.lower comp_type
    /\ Component.name x = comp_name
    /\ (forall pin n, Component.connections x !! pin = Some n ->
          (pin = "from" \/ pin = "to")
          /\ exists k, Circuit.nodes c !! k = Some n)
    /\ (forall key value, Component.properties x !! key = Some value ->
          key ∈ KNOWN_PROPERTIES /\ value <> "")
    /\ (forall value, Component.primary_value x = Some value ->
          Str.contains equals value = false
          /\ value <> "from" /\ value <> "to").
Proof.
  unfold build_component.
  destruct (shlex.split line) as [[|comp_type [|comp_name tokens]]|];
    simpl; try discriminate.
  destruct (take_primary tokens) as [primary_value tokens'] eqn:Hprim.
  intros H. apply (consume_step _ _ _ _ _ _ _ (Nat.le_refl _)) in H
    as (Ht & Hn & Hv & Hc & Hp).
  exists comp_type, comp_name, tokens. simpl in *. split_and!; auto.
  - intros pin n Hpin. apply Hc in Hpin as [Hpin | Hpin]; [|exact Hpin].
    rewrite lookup_empty in Hpin. discriminate.
  - intros key value Hkey. apply Hp in Hkey as [Hkey | Hkey]; [|exact Hkey].
    rewrite lookup_empty in Hkey. discriminate.
  - intros value. rewrite Hv. intros ->. unfold take_primary in Hprim.
    destruct tokens as [|t0 tokens1]; [discriminate|].
    destruct (negb (Str.contains equals t0) && negb (mem t0 ["from"; "to"]))
      eqn:Hcond; [|discriminate].
    injection Hprim as -> _. apply andb_prop in Hcond as [Heq Hmem].
    apply negb_true_iff in Heq, Hmem. apply mem_not_elem_of in Hmem.
    split_and!; [exact Heq | |]; intros ->; apply Hmem;
      repeat constructor.
Qed.

Lemma parse_component_line_Ok line c c' :
  _parse_component_line line c = Ok c' ->
  exists x,
    build_component line c = Ok x
    /\ shorted x = false
    /\ Circuit.components c !! Component.name x = None
    /\ c' = Circuit.mk (<[Component.name x := x]> (Circuit.components c))
              (Circuit.nodes c) (Circuit.subcircuit_definitions c)
              (Circuit.ground_node_name c) (Circuit.allocated c).
Proof.
  unfold _parse_component_line.
  destruct (build_component line c) as [x|]; simpl; [|discriminate].
  destruct (shorted x) eqn:Hs; [discriminate|].
  unfold Circuit.add_component.
  destruct (Circuit.components c !! Component.name x) eqn:E; [discriminate|].
  intros [= <-]. eauto.
Qed.

End BuildComponent.

(** ** What a subcircuit block registers *)

Section BlockResult.

Import Parser.

Lemma expose_pins_Ok pin_defs : forall interface interface',
  expose_pins pin_defs interface = Ok interface' ->
  exists added,
    interface' = interface ++ added /\ Forall (fun pin => pin <> "") added.
Proof.
  induction pin_defs as [|pin_def pin_defs IH]; intros interface interface';
    simpl.
  - intros [= <-]. exists []. rewrite app_nil_r. auto.
  - destruct (Str.contains equals pin_def).
    + destruct (Str.is_empty _) eqn:He; [discriminate|].
      intros H. apply IH in H as (added & -> & Hadded).
      eexists (_ :: added). rewrite <- app_assoc. split; [reflexivity|].
      constructor; [apply is_empty_false, He | exact Hadded].
    + destruct (Str.is_empty pin_def) eqn:He; [discriminate|].
      intros H. apply IH in H as (added & -> & Hadded).
      eexists (_ :: added). rewrite <- app_assoc. split; [reflexivity|].
      constructor; [apply is_empty_false, He | exact Hadded].
Qed.

Lemma collect_Ok lines : forall interface body interface' body',
  collect lines interface body = Ok (interface', body') ->
  (exists added,
      interface' = interface ++ added /\ Forall (fun pin => pin <> "") added)
  /\ body' = body ++ body_lines_of lines.
Proof.
  unfold body_lines_of, is_body_line, skipped.
  induction lines as [|l lines IH]; intros interface body interface' body';
    simpl.
  - intros [= <- <-]. rewrite app_nil_r. split; [|reflexivity].
    exists []. rewrite app_nil_r. auto.
  - destruct (Str.is_empty (Str.strip l) || Str.startswith (Str.strip l) "#");
      simpl; [apply IH|].
    destruct (Str.startswith (Str.strip l) "expose"); simpl.
    + destruct (Str.split_ws_1 (Str.strip l)) as [|? [|rest ?]];
        try discriminate.
      destruct (expose_pins _ interface) as [interface1|] eqn:E; simpl;
        [|discriminate].
      intros H. apply IH in H as ((added & -> & Hadded) & ->).
      apply expose_pins_Ok in E as (added1 & -> & Hadded1).
      split; [|reflexivity]. exists (added1 ++ added).
      rewrite app_assoc. split; [reflexivity|].
      apply Forall_app. auto.
    + intros H. apply IH in H as (Hi & ->). split; [exact Hi|].
      rewrite <- app_assoc. reflexivity.
Qed.

Lemma parse_subcircuit_block_Ok name lines c c' :
  _parse_subcircuit_block name lines c = Ok c' ->
  exists interface,
    interface <> []
    /\ Forall (fun pin => pin <> "") interface
    /\ c' = Circuit.mk (Circuit.components c) (Circuit.nodes c)
              (<[name := SubcircuitDefinition.mk name interface
                           (Str.join nl (body_lines_of lines))]>
                 (Circuit.subcircuit_definitions c))
              (Circuit.ground_node_name c) (Circuit.allocated c).
Proof.
  unfold _parse_subcircuit_block.
  destruct (collect lines [] []) as [[interface body]|] eqn:E; simpl;
    [|discriminate].
  apply collect_Ok in E as ((added & -> & Hadded) & ->). simpl.
  destruct added as [|pin added]; [discriminate|].
  intros [= <-]. exists (pin :: added). split_and!; [discriminate | auto | reflexivity].
Qed.

End BlockResult.

(** ** Declaring nodes and ground *)

Section Declare.

Lemma declare_node_Ok name c c' :
  Circuit.declare_node name c = Ok c' ->
  Circuit.nodes c !! name = None
  /\ c' = Circuit.mk (Circuit.components c)
            (<[name := Node.new (Circuit.allocated c) name]> (Circuit.nodes c))
            (Circuit.subcircuit_definitions c) (Circuit.ground_node_name c)
            (S (Circuit.allocated c)).
Proof.
  unfold Circuit.declare_node.
  destruct (Circuit.nodes c !! name) eqn:E; [discriminate|].
  intros [= <-]. auto.
Qed.

Lemma set_ground_node_Ok name c c' :
  Circuit.set_ground_node name c = Ok c' ->
  Circuit.ground_node_name c' = Some name
  /\ Circuit.components c' = Circuit.components c
  /\ Circuit.subcircuit_definitions c' = Circuit.subcircuit_definitions c
  /\ (Circuit.nodes c' = Circuit.nodes c /\ is_Some (Circuit.nodes c !! name)
      \/ Circuit.nodes c !! name = None
         /\ Circuit.nodes c'
            = <[name := Node.new (Circuit.allocated c) name]> (Circuit.nodes c)).
Proof.
  unfold Circuit.set_ground_node.
  destruct (Circuit.truthy _); [discriminate|].
  destruct (Circuit.nodes c !! name) eqn:E; simpl.
  - intros [= <-]. simpl. split_and!; eauto.
  - destruct (Circuit.declare_node name c) as [c1|] eqn:E1; simpl;
      [|discriminate].
    apply declare_node_Ok in E1 as [_ ->]. intros [= <-]. simpl.
    split_and!; auto.
Qed.

End Declare.

(** ** Invariants of the circuit under construction *)

Section Operations.

Import Parser.

(** The operations on the circuit through which a line is processed. *)
Lemma process_line_ops line st st' :
  process_line line st = Ok st' ->
  (exists name c,
      _parse_subcircuit_block name (subcircuit_lines st) (circuit st) = Ok c
      /\ st' = mk c false None [])
  \/ circuit st' = circuit st
  \/ (exists names c,
         declare_nodes names (circuit st) = Ok c /\ st' = with_circuit c st)
  \/ (exists name c,
         Circuit.set_ground_node name (circuit st) = Ok c
         /\ st' = with_circuit c st)
  \/ (exists t0 args c,
         shlex.split line = Ok (t0 :: args)
         /\ (is_Some (COMPONENT_SCHEMA !! Str.lower t0)
             \/ is_Some (Circuit.subcircuit_definitions (circuit st)
                           !! Str.lower t0))
         /\ _parse_component_line line (circuit st) = Ok c
         /\ st' = with_circuit c st).
Proof.
  unfold process_line.
  destruct (Str.startswith line "[/subcircuit]").
  { destruct (in_subcircuit_block st); simpl; [|discriminate].
    destruct (current_subcircuit_name st) as [name|]; [|discriminate].
    destruct (_parse_subcircuit_block _ _ _) as [c|] eqn:E; simpl;
      [|discriminate].
    intros [= <-]. left. eauto. }
  destruct (Str.startswith line "[subcircuit").
  { destruct (in_subcircuit_block st); [discriminate|].
    destruct (Str.split_ws_1 line) as [|? [|? ?]]; try discriminate.
    intros [= <-]. auto. }
  destruct (in_subcircuit_block st) eqn:Hb; [intros [= <-]; auto|].
  destruct (_ || _); [intros [= <-]; auto|].
  destruct (shlex.split line) as [[|t0 args]|]; simpl; try discriminate.
  { intros [= <-]; auto. }
  destruct (String.eqb _ "node").
  { destruct args; [discriminate|].
    destruct (declare_nodes _ _) eqn:E; simpl; [|discriminate].
    intros [= <-]. right. right. left. eauto. }
  destruct (String.eqb _ "ground").
  { destruct args as [|? [|? ?]]; try discriminate.
    destruct (Circuit.set_ground_node _ _) eqn:E; simpl; [|discriminate].
    intros [= <-]. right. right. right. left. eauto. }
  destruct (_ || _) eqn:Hd; [|discriminate].
  destruct (_parse_component_line _ _) as [c|] eqn:E; simpl; [|discriminate].
  intros [= <-]. do 4 right. exists t0, args, c. split; [reflexivity|].
  split; [|auto].
  apply orb_prop in Hd as [Hd | Hd]; apply bool_decide_eq_true in Hd; auto.
Qed.

End Operations.

Section Invariant.

Import Parser.

(** A property of circuits kept by each of the four operations is kept by
    the whole parse. *)
Variable Inv : Circuit.t -> Prop.

Hypothesis Inv_declare_node : forall name c c',
  Inv c -> Circuit.declare_node name c = Ok c' -> Inv c'.
Hypothesis Inv_set_ground_node : forall name c c',
  Inv c -> Circuit.set_ground_node name c = Ok c' -> Inv c'.
Hypothesis Inv_block : forall name lines c c',
  Inv c -> _parse_subcircuit_block name lines c = Ok c' -> Inv c'.
Hypothesis Inv_component : forall line t0 args c c',
  Inv c ->
  shlex.split line = Ok (t0 :: args) ->
  is_Some (COMPONENT_SCHEMA !! Str.lower t0)
  \/ is_Some (Circuit.subcircuit_definitions c !! Str.lower t0) ->
  _parse_component_line line c = Ok c' -> Inv c'.

Lemma declare_nodes_invariant names : forall c c',
  Inv c -> declare_nodes names c = Ok c' -> Inv c'.
Proof.
  induction names as [|name names IH]; intros c c' Hc; simpl.
  - intros [= <-]. exact Hc.
  - destruct (Str.is_empty (Str.strip name)); [apply IH, Hc|].
    destruct (Circuit.declare_node (Str.strip name) c) eqn:E; simpl;
      [|discriminate].
    apply IH. eauto.
Qed.

Lemma process_line_invariant line st st' :
  Inv (circuit st) -> process_line line st = Ok st' -> Inv (circuit st').
Proof.
  intros Hc H. apply process_line_ops in H
    as [(name & c & Hb & ->)
       | [-> | [(names & c & Hn & ->)
       | [(name & c & Hg & ->) | (t0 & args & c & Hs & Hd & Hl & ->)]]]];
    simpl; eauto using declare_nodes_invariant.
Qed.

Lemma parse_lines_invariant lines : forall n st st',
  Inv (circuit st) -> parse_lines n lines st = Ok st' -> Inv (circuit st').
Proof.
  induction lines as [|l lines IH]; intros n st st' Hc; simpl.
  - intros [= <-]. exact Hc.
  - destruct (process_line (Str.strip l) st) eqn:E; [|discriminate].
    apply IH. eauto using process_line_invariant.
Qed.

Lemma parse_invariant text c :
  Inv Circuit.new -> parse text = Ok c -> Inv c.
Proof.
  intros H0. unfold parse, parse_from_lines.
  destruct (parse_lines 1 _ init) as [st|] eqn:E; simpl; [|discriminate].
  destruct (in_subcircuit_block st); [discriminate|].
  intros [= <-]. exact (parse_lines_invariant _ _ init _ H0 E).
Qed.

End Invariant.

Section CircuitOk.

Import Parser.

Lemma component_ok_weaken c c' k x :
  Circuit.nodes c ⊆ Circuit.nodes c' ->
  (forall t, is_Some (Circuit.subcircuit_definitions c !! t) ->
             is_Some (Circuit.subcircuit_definitions c' !! t)) ->
  component_ok c k x -> component_ok c' k x.
Proof.
  intros Hn Hd (Hname & Hlow & Hty & Hconn & Hprop & Hprim & Hs).
  unfold component_ok. split_and!; auto.
  - destruct Hty; auto.
  - intros pin n Hpin. apply Hconn in Hpin as [Hp Hnode].
    split; [exact Hp|]. eapply lookup_weaken; eassumption.
Qed.

Lemma circuit_ok_new : circuit_ok Circuit.new.
Proof.
  unfold circuit_ok. simpl.
  split_and!; intros *; rewrite ?lookup_empty; discriminate.
Qed.

Lemma circuit_ok_node_insert c name nodes' c' :
  circuit_ok c ->
  Circuit.nodes c !! name = None ->
  nodes' = <[name := Node.new (Circuit.allocated c) name]> (Circuit.nodes c) ->
  Circuit.nodes c' = nodes' ->
  Circuit.components c' = Circuit.components c ->
  Circuit.subcircuit_definitions c' = Circuit.subcircuit_definitions c ->
  (forall g, Circuit.ground_node_name c' = Some g ->
             g = name \/ Circuit.ground_node_name c = Some g) ->
  circuit_ok c'.
Proof.
  intros (Hn & Hg & Hd & Hx) Hfresh -> Hnodes Hcomps Hdefs Hground.
  assert (Hsub : Circuit.nodes c ⊆ Circuit.nodes c').
  { rewrite Hnodes. apply insert_subseteq, Hfresh. }
  unfold circuit_ok. split_and!.
  - intros k n. rewrite Hnodes, lookup_insert.
    case_decide; [intros [= <-]; subst; reflexivity | apply Hn].
  - intros g Hg'. apply Hground in Hg' as [-> | Hg'].
    + rewrite Hnodes, lookup_insert_eq. eauto.
    + eapply lookup_weaken_is_Some; eauto.
  - rewrite Hdefs. exact Hd.
  - rewrite Hcomps. intros k x Hk.
    apply (component_ok_weaken c); auto. rewrite Hdefs. auto.
Qed.

Lemma circuit_ok_declare_node name c c' :
  circuit_ok c -> Circuit.declare_node name c = Ok c' -> circuit_ok c'.
Proof.
  intros Hok H. apply declare_node_Ok in H as [Hfresh ->].
  eapply (circuit_ok_node_insert c name); eauto.
Qed.

Lemma circuit_ok_set_ground_node name c c' :
  circuit_ok c -> Circuit.set_ground_node name c = Ok c' -> circuit_ok c'.
Proof.
  intros Hok H.
  apply set_ground_node_Ok in H
    as (Hg & Hcomps & Hdefs & [[Hnodes Hsome] | [Hfresh Hnodes]]).
  - destruct Hok as (Hn & Hgr & Hd & Hx). unfold circuit_ok. split_and!.
    + rewrite Hnodes. exact Hn.
    + intros g. rewrite Hg, Hnodes. intros [= <-]. exact Hsome.
    + rewrite Hdefs. exact Hd.
    + rewrite Hcomps. intros k x Hk. apply (component_ok_weaken c); auto.
      * rewrite Hnodes. reflexivity.
      * rewrite Hdefs. auto.
  - eapply (circuit_ok_node_insert c name); eauto.
    intros g. rewrite Hg. intros [= <-]. auto.
Qed.

Lemma circuit_ok_block name lines c c' :
  circuit_ok c -> _parse_subcircuit_block name lines c = Ok c' ->
  circuit_ok c'.
Proof.
  intros (Hn & Hg & Hd & Hx) H.
  apply parse_subcircuit_block_Ok in H as (interface & Hne & Hall & ->).
  unfold circuit_ok. simpl. split_and!; auto.
  - intros S d. rewrite lookup_insert.
    case_decide; [intros [= <-]; subst; simpl; auto | apply Hd].
  - intros k x Hk. apply (component_ok_weaken c); simpl; auto.
    intros t Ht. apply lookup_insert_is_Some'. auto.
Qed.

Lemma circuit_ok_component line t0 args c c' :
  circuit_ok c ->
  shlex.split line = Ok (t0 :: args) ->
  is_Some (COMPONENT_SCHEMA !! Str.lower t0)
  \/ is_Some (Circuit.subcircuit_definitions c !! Str.lower t0) ->
  _parse_component_line line c = Ok c' -> circuit_ok c'.
Proof.
  intros (Hn & Hg & Hd & Hx) Hsplit Hty H.
  apply parse_component_line_Ok in H as (x & Hbuild & Hs & Hfresh & ->).
  apply build_component_Ok in Hbuild
    as (comp_type & comp_name & tokens & Hsplit' & Htype & Hname & Hc & Hp
        & Hv).
  rewrite Hsplit in Hsplit'. injection Hsplit' as <- _.
  unfold circuit_ok. simpl. split_and!; auto.
  intros k y. rewrite lookup_insert. case_decide.
  - intros [= <-]. subst k. unfold component_ok. simpl.
    split_and!; auto.
    + rewrite Htype. apply lower_idem.
    + rewrite Htype. exact Hty.
    + intros pin n Hpin. apply Hc in Hpin as [Hpin (k & Hk)].
      split; [exact Hpin|]. rewrite (Hn _ _ Hk). exact Hk.
  - intros Hk. apply (component_ok_weaken c); simpl; auto.
Qed.

(** Every circuit the parser returns is well formed. *)
Lemma parse_circuit_ok text c : Parser.parse text = Ok c -> circuit_ok c.
Proof.
  apply (parse_invariant circuit_ok);
    eauto using circuit_ok_declare_node, circuit_ok_set_ground_node,
      circuit_ok_block, circuit_ok_component, circuit_ok_new.
Qed.

Lemma parse_heap_ok text c : Parser.parse text = Ok c -> heap_ok c.
Proof.
  unfold parse, parse_from_lines.
  destruct (parse_lines 1 _ init) as [st|] eqn:E; simpl; [|discriminate].
  destruct (in_subcircuit_block st); [discriminate|].
  intros [= <-]. apply parse_lines_keeps in E as (_ & _ & H).
  apply H, heap_ok_new.
Qed.

End CircuitOk.

(** ** The circuit that parsing returns *)

Section SizeTwo.

Lemma two_keys_size {A} (m : gmap string A) k1 k2 x1 x2 :
  k1 <> k2 -> m !! k1 = Some x1 -> m !! k2 = Some x2 -> 1 < size m.
Proof.
  intros Hne H1 H2.
  assert (Hd : size (delete k1 m) <> 0).
  { apply (map_size_ne_0_lookup_2 _ k2). rewrite lookup_delete_ne by exact Hne.
    eauto. }
  rewrite map_size_delete, H1 in Hd. simpl in Hd. lia.
Qed.

End SizeTwo.

(** X1: in a returned circuit every Node is registered under its own name,
    and two different names never hold a Node of the same identity. *)
Theorem parsed_nodes_named (text : string) (c : Circuit.t) :
  Parser.parse text = Ok c ->
  (forall k n, Circuit.nodes c !! k = Some n -> Node.name n = k)
  /\ (forall k1 k2 n1 n2,
         Circuit.nodes c !! k1 = Some n1 ->
         Circuit.nodes c !! k2 = Some n2 ->
         k1 <> k2 -> Node.id n1 <> Node.id n2).
Proof.
  intros H. split.
  - apply (parse_circuit_ok _ _ H).
  - intros k1 k2 n1 n2 H1 H2 Hne Hid.
    destruct (parse_heap_ok _ _ H) as [_ Hinj]. eauto.
Qed.

Lemma parsed_nodes_named_witness :
  exists c n1 n2,
    Parser.parse sample_document = Ok c
    /\ Circuit.nodes c !! "n1" = Some n1
    /\ Circuit.nodes c !! "gnd" = Some n2
    /\ Node.name n1 = "n1" /\ Node.id n1 <> Node.id n2.
Proof.
  destruct (Parser.parse sample_document) as [c|e] eqn:E;
    [|vm_compute in E; discriminate].
  pose proof E as E1. vm_compute in E1. injection E1 as E1.
  destruct (Circuit.nodes c !! "n1") as [n1|] eqn:H1;
    [|rewrite <- E1 in H1; vm_compute in H1; discriminate].
  destruct (Circuit.nodes c !! "gnd") as [n2|] eqn:H2;
    [|rewrite <- E1 in H2; vm_compute in H2; discriminate].
  exists c, n1, n2. split_and!; try assumption; try reflexivity.
  - exact (proj1 (parsed_nodes_named _ _ E) _ _ H1).
  - apply (proj2 (parsed_nodes_named _ _ E) "n1" "gnd"); auto; discriminate.
Defined.

(** X2: the ground name of a returned circuit is a declared node. *)
Theorem parsed_ground_declared (text : string) (c : Circuit.t) (g : string) :
  Parser.parse text = Ok c ->
  Circuit.ground_node_name c = Some g ->
  exists n, Circuit.nodes c !! g = Some n /\ Node.name n = g.
Proof.
  intros H Hg. destruct (parse_circuit_ok _ _ H) as (Hn & Hgr & _).
  destruct (Hgr _ Hg) as [n Hk]. eauto.
Qed.

Lemma parsed_ground_declared_witness :
  exists c n,
    Parser.parse sample_document = Ok c
    /\ Circuit.nodes c !! "gnd" = Some n /\ Node.name n = "gnd".
Proof.
  destruct (Parser.parse sample_document) as [c|e] eqn:E;
    [|vm_compute in E; discriminate].
  pose proof E as E1. vm_compute in E1. injection E1 as E1.
  destruct (parsed_ground_declared sample_document c "gnd" E) as (n & Hn & Hname).
  - rewrite <- E1. reflexivity.
  - exists c, n. auto.
Defined.

(** X3: every component of a returned circuit is stored under its own
    name; its type is in lower case and is a schema type or the name of a
    subcircuit definition of that circuit. *)
Theorem parsed_component_type_known
  (text : string) (c : Circuit.t) (k : string) (x : Component.t) :
  Parser.parse text = Ok c ->
  Circuit.components c !! k = Some x ->
  Component.name x = k
  /\ Str.lower (Component.component_type x) = Component.component_type x
  /\ (is_Some (COMPONENT_SCHEMA !! Component.component_type x)
      \/ is_Some (Circuit.subcircuit_definitions c
                    !! Component.component_type x)).
Proof.
  intros H Hk. destruct (parse_circuit_ok _ _ H) as (_ & _ & _ & Hx).
  destruct (Hx _ _ Hk) as (? & ? & ? & _). auto.
Qed.

Lemma parsed_component_type_known_witness :
  exists c x,
    Parser.parse sample_document = Ok c
    /\ Circuit.components c !! "R1" = Some x
    /\ Component.name x = "R1".
Proof.
  destruct (Parser.parse sample_document) as [c|e] eqn:E;
    [|vm_compute in E; discriminate].
  pose proof E as E1. vm_compute in E1. injection E1 as E1.
  destruct (Circuit.components c !! "R1") as [x|] eqn:Hx;
    [|rewrite <- E1 in Hx; vm_compute in Hx; discriminate].
  exists c, x. split_and!; try assumption; try reflexivity.
  exact (proj1 (parsed_component_type_known _ _ _ _ E Hx)).
Defined.

(** X4: in a returned circuit a component is connected on the pins [from]
    and [to] only, and each connected pin holds the Node that the circuit
    registers under that Node's name. *)
Theorem parsed_connections_declared
  (text : string) (c : Circuit.t) (k : string) (x : Component.t)
  (pin : string) (n : Node.t) :
  Parser.parse text = Ok c ->
  Circuit.components c !! k = Some x ->
  Component.connections x !! pin = Some n ->
  (pin = "from" \/ pin = "to") /\ Circuit.nodes c !! Node.name n = Some n.
Proof.
  intros H Hk Hpin. destruct (parse_circuit_ok _ _ H) as (_ & _ & _ & Hx).
  destruct (Hx _ _ Hk) as (_ & _ & _ & Hc & _). eauto.
Qed.

Lemma parsed_connections_declared_witness :
  exists c x n,
    Parser.parse sample_document = Ok c
    /\ Circuit.components c !! "A1" = Some x
    /\ Component.connections x !! "to" = Some n
    /\ Circuit.nodes c !! Node.name n = Some n.
Proof.
  destruct (Parser.parse sample_document) as [c|e] eqn:E;
    [|vm_compute in E; discriminate].
  pose proof E as E1. vm_compute in E1. injection E1 as E1.
  destruct (Circuit.components c !! "A1") as [x|] eqn:Hx;
    [|rewrite <- E1 in Hx; vm_compute in Hx; discriminate].
  destruct (Component.connections x !! "to") as [n|] eqn:Hn;
    [|rewrite <- E1 in Hx; vm_compute in Hx; injection Hx as <-;
      vm_compute in Hn; discriminate].
  exists c, x, n. split_and!; try assumption; try reflexivity.
  exact (proj2 (parsed_connections_declared _ _ _ _ _ _ E Hx Hn)).
Defined.

(** X5: every property of a component of a returned circuit has one of
    the known property names as its key and a non-empty value. *)
Theorem parsed_properties_known
  (text : string) (c : Circuit.t) (k : string) (x : Component.t)
  (key value : string) :
  Parser.parse text = Ok c ->
  Circuit.components c !! k = Some x ->
  Component.properties x !! key = Some value ->
  key ∈ KNOWN_PROPERTIES /\ value <> "".
Proof.
  intros H Hk Hkey. destruct (parse_circuit_ok _ _ H) as (_ & _ & _ & Hx).
  destruct (Hx _ _ Hk) as (_ & _ & _ & _ & Hp & _). eauto.
Qed.

Lemma parsed_properties_known_witness :
  exists c x value,
    Parser.parse sample_document = Ok c
    /\ Circuit.components c !! "R1" = Some x
    /\ Component.properties x !! "tolerance" = Some value
    /\ value <> "".
Proof.
  destruct (Parser.parse sample_document) as [c|e] eqn:E;
    [|vm_compute in E; discriminate].
  pose proof E as E1. vm_compute in E1. injection E1 as E1.
  destruct (Circuit.components c !! "R1") as [x|] eqn:Hx;
    [|rewrite <- E1 in Hx; vm_compute in Hx; discriminate].
  destruct (Component.properties x !! "tolerance") as [value|] eqn:Hv;
    [|rewrite <- E1 in Hx; vm_compute in Hx; injection Hx as <-;
      vm_compute in Hv; discriminate].
  exists c, x, value. split_and!; try assumption; try reflexivity.
  exact (proj2 (parsed_properties_known _ _ _ _ _ _ E Hx Hv)).
Defined.

(** X6: in a returned circuit no component has its pins [from] and [to] on
    the same node: the two Nodes differ in identity and in name. *)
Theorem parsed_component_not_shorted
  (text : string) (c : Circuit.t) (k : string) (x : Component.t)
  (n1 n2 : Node.t) :
  Parser.parse text = Ok c ->
  Circuit.components c !! k = Some x ->
  Component.connections x !! "from" = Some n1 ->
  Component.connections x !! "to" = Some n2 ->
  Node.id n1 <> Node.id n2 /\ Node.name n1 <> Node.name n2.
Proof.
  intros H Hk H1 H2. destruct (parse_circuit_ok _ _ H) as (_ & _ & _ & Hx).
  destruct (Hx _ _ Hk) as (_ & _ & _ & Hc & _ & _ & Hs).
  assert (Hid : Node.id n1 <> Node.id n2).
  { intros Hid. assert (Hst : Parser.shorted x = true); [|congruence].
    apply shorted_iff. split.
    - apply (two_keys_size _ "from" "to" n1 n2); auto; discriminate.
    - intros p q n m Hp Hq.
      destruct (proj1 (Hc _ _ Hp)) as [-> | ->];
        destruct (proj1 (Hc _ _ Hq)) as [-> | ->]; congruence. }
  split; [exact Hid|]. intros Hname.
  destruct (Hc _ _ H1) as [_ Hn1]. destruct (Hc _ _ H2) as [_ Hn2].
  rewrite Hname in Hn1. congruence.
Qed.

Lemma parsed_component_not_shorted_witness :
  exists c x n1 n2,
    Parser.parse sample_document = Ok c
    /\ Circuit.components c !! "R1" = Some x
    /\ Component.connections x !! "from" = Some n1
    /\ Component.connections x !! "to" = Some n2
    /\ Node.name n1 <> Node.name n2.
Proof.
  destruct (Parser.parse sample_document) as [c|e] eqn:E;
    [|vm_compute in E; discriminate].
  pose proof E as E1. vm_compute in E1. injection E1 as E1.
  destruct (Circuit.components c !! "R1") as [x|] eqn:Hx;
    [|rewrite <- E1 in Hx; vm_compute in Hx; discriminate].
  pose proof Hx as Hx1. rewrite <- E1 in Hx1. vm_compute in Hx1.
  injection Hx1 as Hx1.
  destruct (Component.connections x !! "from") as [n1|] eqn:H1;
    [|rewrite <- Hx1 in H1; vm_compute in H1; discriminate].
  destruct (Component.connections x !! "to") as [n2|] eqn:H2;
    [|rewrite <- Hx1 in H2; vm_compute in H2; discriminate].
  exists c, x, n1, n2. split_and!; try assumption; try reflexivity.
  exact (proj2 (parsed_component_not_shorted _ _ _ _ _ _ E Hx H1 H2)).
Defined.

(** X7: every subcircuit definition of a returned circuit is stored under
    its own name and has a non-empty interface of non-empty pin names. *)
Theorem parsed_definitions_wellformed
  (text : string) (c : Circuit.t) (S : string) (d : SubcircuitDefinition.t) :
  Parser.parse text = Ok c ->
  Circuit.subcircuit_definitions c !! S = Some d ->
  SubcircuitDefinition.name d = S
  /\ SubcircuitDefinition.interface d <> []
  /\ Forall (fun pin => pin <> "") (SubcircuitDefinition.interface d).
Proof.
  intros H Hd. destruct (parse_circuit_ok _ _ H) as (_ & _ & Hdefs & _).
  eauto.
Qed.

Lemma parsed_definitions_wellformed_witness :
  exists c d,
    Parser.parse sample_document = Ok c
    /\ Circuit.subcircuit_definitions c !! "amp" = Some d
    /\ SubcircuitDefinition.interface d <> [].
Proof.
  destruct (Parser.parse sample_document) as [c|e] eqn:E;
    [|vm_compute in E; discriminate].
  pose proof E as E1. vm_compute in E1. injection E1 as E1.
  destruct (Circuit.subcircuit_definitions c !! "amp") as [d|] eqn:Hd;
    [|rewrite <- E1 in Hd; vm_compute in Hd; discriminate].
  exists c, d. split_and!; try assumption; try reflexivity.
  exact (proj1 (proj2 (parsed_definitions_wellformed _ _ _ _ E Hd))).
Defined.

(** X8: the primary value of a component of a returned circuit is never a
    [key=value] text nor one of the words [from], [to]. *)
Theorem parsed_primary_value_plain
  (text : string) (c : Circuit.t) (k : string) (x : Component.t)
  (value : string) :
  Parser.parse text = Ok c ->
  Circuit.components c !! k = Some x ->
  Component.primary_value x = Some value ->
  Str.contains Parser.equals value = false
  /\ value <> "from" /\ value <> "to".
Proof.
  intros H Hk Hv. destruct (parse_circuit_ok _ _ H) as (_ & _ & _ & Hx).
  destruct (Hx _ _ Hk) as (_ & _ & _ & _ & _ & Hp & _). eauto.
Qed.

Lemma parsed_primary_value_plain_witness :
  exists c x value,
    Parser.parse sample_document = Ok c
    /\ Circuit.components c !! "R1" = Some x
    /\ Component.primary_value x = Some value
    /\ value <> "from".
Proof.
  destruct (Parser.parse sample_document) as [c|e] eqn:E;
    [|vm_compute in E; discriminate].
  pose proof E as E1. vm_compute in E1. injection E1 as E1.
  destruct (Circuit.components c !! "R1") as [x|] eqn:Hx;
    [|rewrite <- E1 in Hx; vm_compute in Hx; discriminate].
  destruct (Component.primary_value x) as [value|] eqn:Hv;
    [|rewrite <- E1 in Hx; vm_compute in Hx; injection Hx as <-;
      vm_compute in Hv; discriminate].
  exists c, x, value. split_and!; try assumption; try reflexivity.
  exact (proj1 (proj2 (parsed_primary_value_plain _ _ _ _ _ E Hx Hv))).
Defined.

(** ** Blocks *)

(** X9: registering a block changes nothing but the definition stored
    under the block's name; the body text of that definition is made of the
    trimmed lines of the block that are neither blank, nor comments, nor
    [expose] lines, in order, joined by newlines. *)
Theorem block_registers_body
  (name : string) (lines : list string) (c c' : Circuit.t) :
  Parser._parse_subcircuit_block name lines c = Ok c' ->
  Circuit.components c' = Circuit.components c
  /\ Circuit.nodes c' = Circuit.nodes c
  /\ Circuit.ground_node_name c' = Circuit.ground_node_name c
  /\ (forall S, S <> name ->
        Circuit.subcircuit_definitions c' !! S
        = Circuit.subcircuit_definitions c !! S)
  /\ exists d,
       Circuit.subcircuit_definitions c' !! name = Some d
       /\ SubcircuitDefinition.body_text d
          = Str.join Parser.nl (body_lines_of lines).
Proof.
  intros H. apply parse_subcircuit_block_Ok in H as (interface & _ & _ & ->).
  simpl. split_and!; auto.
  - intros S HS. apply lookup_insert_ne. congruence.
  - eexists. split; [apply lookup_insert_eq | reflexivity].
Qed.

Lemma block_registers_body_witness :
  exists c d,
    Parser._parse_subcircuit_block "amp"
      ["  # gain stage"; "expose in, out"; ""; " resistor RF 1k from in to out ";
       "node mid"] Circuit.new = Ok c
    /\ Circuit.subcircuit_definitions c !! "amp" = Some d
    /\ SubcircuitDefinition.body_text d
       = doc ["resistor RF 1k from in to out"; "node mid"].
Proof.
  destruct (Parser._parse_subcircuit_block "amp"
      ["  # gain stage"; "expose in, out"; ""; " resistor RF 1k from in to out ";
       "node mid"] Circuit.new) as [c|e] eqn:E;
    [|vm_compute in E; discriminate].
  destruct (block_registers_body _ _ _ _ E) as (_ & _ & _ & _ & d & Hd & Hb).
  exists c, d. split_and!; [reflexivity | exact Hd |].
  rewrite Hb. vm_compute. reflexivity.
Defined.

(** X10: while a block is open, lines that are not block markers are never
    interpreted: whatever they say, processing them does not fail and does
    not touch the circuit; they are appended, trimmed, to the buffer. *)
Theorem block_lines_inert
  (pre body : list string) (st : Parser.locals) :
  Parser.parse_lines 1 pre Parser.init = Ok st ->
  Parser.in_subcircuit_block st = true ->
  Forall (fun l => is_marker l = false) body ->
  exists st',
    Parser.parse_lines 1 (pre ++ body) Parser.init = Ok st'
    /\ Parser.circuit st' = Parser.circuit st
    /\ Parser.in_subcircuit_block st' = true
    /\ Parser.current_subcircuit_name st' = Parser.current_subcircuit_name st
    /\ Parser.subcircuit_lines st'
       = Parser.subcircuit_lines st ++ map Str.strip body.
Proof.
  intros Hpre Hb Hbody.
  destruct (parse_lines_block_has_name _ _ _ _ block_has_name_init Hpre Hb)
    as [name Hname].
  rewrite parse_lines_app, Hpre.
  destruct st as [c b o buffer]. simpl in *. subst b o.
  rewrite parse_lines_buffer by exact Hbody.
  eexists. split; [reflexivity|]. simpl. auto.
Qed.

Lemma block_lines_inert_witness :
  exists st',
    Parser.parse_lines 1
      (["node a"; "[subcircuit S]"]
         ++ ["ground a"; "ground b"; "no such command"; "resistor"])
      Parser.init = Ok st'
    /\ Parser.subcircuit_lines st'
       = ["ground a"; "ground b"; "no such command"; "resistor"].
Proof.
  destruct (block_lines_inert ["node a"; "[subcircuit S]"]
              ["ground a"; "ground b"; "no such command"; "resistor"]
              (Parser.mk
                 (Circuit.mk ∅ {[ "a" := Node.new 0 "a" ]} ∅ None 1)
                 true (Some "S") []))
    as (st' & H & _ & _ & _ & Hbuf).
  - vm_compute. reflexivity.
  - reflexivity.
  - repeat constructor.
  - exists st'. split; [exact H | exact Hbuf].
Defined.

(** ** The document as a whole *)

Section Document.

Import Parser.

Lemma parse_lines_strip lines : forall n st,
  parse_lines n (map Str.strip lines) st = parse_lines n lines st.
Proof.
  induction lines as [|l lines IH]; intros n st; [reflexivity|].
  simpl. rewrite strip_idem.
  destruct (process_line (Str.strip l) st); [apply IH | reflexivity].
Qed.

(** Where a failing line puts the failure of the whole parse. *)
Lemma parse_raises_at text pre l post st e :
  Str.split Str.newline (Str.strip text) = pre ++ l :: post ->
  parse_lines 1 pre init = Ok st ->
  process_line (Str.strip l) st = Raise e ->
  parse text = Raise (wrap (S (length pre)) e).
Proof.
  intros Hsplit Hpre Hl. unfold parse, parse_from_lines.
  rewrite Hsplit, parse_lines_app, Hpre. simpl. rewrite Hl. reflexivity.
Qed.

Lemma block_start_not_end line :
  Str.startswith line "[subcircuit" = true ->
  Str.startswith line "[/subcircuit]" = false.
Proof.
  destruct line as [|c1 line]; [discriminate|].
  intros H. apply startswith_cons_inv in H as [<- H].
  destruct line as [|c2 line]; [discriminate|].
  apply startswith_cons_inv in H as [<- _]. reflexivity.
Qed.

Lemma definitions_stay S line t0 args c c' :
  is_Some (Circuit.subcircuit_definitions c !! S) ->
  shlex.split line = Ok (t0 :: args) ->
  is_Some (COMPONENT_SCHEMA !! Str.lower t0)
  \/ is_Some (Circuit.subcircuit_definitions c !! Str.lower t0) ->
  _parse_component_line line c = Ok c' ->
  is_Some (Circuit.subcircuit_definitions c' !! S).
Proof.
  intros HS _ _ H. apply parse_component_line_Ok in H as (x & _ & _ & _ & ->).
  exact HS.
Qed.

Lemma parse_lines_definitions_stay S lines n st st' :
  is_Some (Circuit.subcircuit_definitions (circuit st) !! S) ->
  parse_lines n lines st = Ok st' ->
  is_Some (Circuit.subcircuit_definitions (circuit st') !! S).
Proof.
  apply (parse_lines_invariant
           (fun c => is_Some (Circuit.subcircuit_definitions c !! S))).
  - intros name c c' HS H. apply declare_node_Ok in H as [_ ->]. exact HS.
  - intros name c c' HS H.
    apply set_ground_node_Ok in H as (_ & _ & -> & _). exact HS.
  - intros name blines c c' HS H.
    apply parse_subcircuit_block_Ok in H as (interface & _ & _ & ->).
    simpl. apply lookup_insert_is_Some'. auto.
  - intros line t0 args c c' HS. apply definitions_stay, HS.
Qed.

End Document.

(** X11: nothing a line has added is lost later: every component and every
    node present after a prefix of the lines is in the returned circuit
    unchanged, and every subcircuit name registered by then is still
    registered. *)
Theorem parse_keeps_earlier_entries
  (text : string) (pre post : list string) (st : Parser.locals)
  (c : Circuit.t) :
  Str.split Str.newline (Str.strip text) = pre ++ post ->
  Parser.parse_lines 1 pre Parser.init = Ok st ->
  Parser.parse text = Ok c ->
  Circuit.components (Parser.circuit st) ⊆ Circuit.components c
  /\ Circuit.nodes (Parser.circuit st) ⊆ Circuit.nodes c
  /\ (forall S,
        is_Some (Circuit.subcircuit_definitions (Parser.circuit st) !! S) ->
        is_Some (Circuit.subcircuit_definitions c !! S)).
Proof.
  intros Hsplit Hpre. unfold Parser.parse, Parser.parse_from_lines.
  rewrite Hsplit, parse_lines_app, Hpre.
  destruct (Parser.parse_lines _ post st) as [st'|] eqn:E; simpl;
    [|discriminate].
  destruct (Parser.in_subcircuit_block st'); [discriminate|].
  intros [= <-]. destruct (parse_lines_keeps _ _ _ _ E) as (Hc & Hn & _).
  split_and!; auto.
  intros S HS. exact (parse_lines_definitions_stay _ _ _ _ _ HS E).
Qed.

Lemma parse_keeps_earlier_entries_witness :
  exists c,
    Parser.parse sample_document = Ok c
    /\ is_Some (Circuit.subcircuit_definitions c !! "amp").
Proof.
  destruct (Parser.parse sample_document) as [c|e] eqn:E;
    [|vm_compute in E; discriminate].
  exists c. split; [reflexivity|].
  apply (parse_keeps_earlier_entries sample_document
           ["# an amplifier stage"; "[subcircuit amp]"; "expose in, out=o1";
            "resistor RF 1k from in to out"; "[/subcircuit]"]
           ["node n1, n2"; "ground gnd";
            "Resistor R1 10k from n1 to n2 tolerance=5%";
            "amp A1 from n2 to gnd"]
           (Parser.mk
              (Circuit.mk ∅ ∅
                 {[ "amp" := SubcircuitDefinition.mk "amp" ["in"; "out"]
                               "resistor RF 1k from in to out" ]} None 0)
              false None []) c).
  - vm_compute. reflexivity.
  - vm_compute. reflexivity.
  - exact E.
  - vm_compute. eauto.
Defined.

(** X12: parsing stops at the first failing line: when a prefix of the
    lines fails, the whole parse fails with that same error, whatever
    follows. *)
Theorem parse_fails_fast
  (text : string) (pre post : list string) (e : exn) :
  Str.split Str.newline (Str.strip text) = pre ++ post ->
  Parser.parse_lines 1 pre Parser.init = Raise e ->
  Parser.parse text = Raise e.
Proof.
  intros Hsplit Hpre. unfold Parser.parse, Parser.parse_from_lines.
  rewrite Hsplit, parse_lines_app, Hpre. reflexivity.
Qed.

Lemma parse_fails_fast_witness :
  Parser.parse (doc ["node a"; "node a"; "ground"; "lamp L1"])
  = Raise (ValueError "On line 2: Node 'a' has already been declared.").
Proof.
  apply (parse_fails_fast _ ["node a"; "node a"] ["ground"; "lamp L1"]).
  - vm_compute. reflexivity.
  - vm_compute. reflexivity.
Defined.

(** X13: white space around the document and around each line plays no
    part: parsing the trimmed document, or the lines each trimmed, gives
    the same result. *)
Theorem parse_ignores_surrounding_space :
  (forall text, Parser.parse (Str.strip text) = Parser.parse text)
  /\ (forall lines,
        Parser.parse_from_lines (map Str.strip lines)
        = Parser.parse_from_lines lines).
Proof.
  split.
  - intros text. unfold Parser.parse. rewrite strip_idem. reflexivity.
  - intros lines. unfold Parser.parse_from_lines.
    rewrite parse_lines_strip. reflexivity.
Qed.

(** ** Node lines *)

Section NodeLine.

Import Parser.

Lemma declare_nodes_succeeds names : forall c,
  (exists c', declare_nodes names c = Ok c')
  <-> NoDup (declared_names names)
      /\ (forall k, k ∈ declared_names names -> Circuit.nodes c !! k = None).
Proof.
  unfold declared_names.
  induction names as [|name names IH]; intros c; simpl.
  { split; [|eauto]. intros _. split; [constructor|].
    intros k H. inversion H. }
  destruct (Str.is_empty (Str.strip name)) eqn:He; simpl; [apply IH|].
  split.
  - intros [c' H].
    destruct (Circuit.declare_node (Str.strip name) c) as [c1|] eqn:E1;
      simpl in H; [|discriminate].
    apply declare_node_Ok in E1 as [Hfresh ->].
    destruct (proj1 (IH _) (ex_intro _ c' H)) as [Hnd Hall]. simpl in Hall.
    split.
    + apply NoDup_cons. split; [|exact Hnd]. intros Hin.
      specialize (Hall _ Hin). rewrite lookup_insert_eq in Hall. discriminate.
    + intros k Hk. apply elem_of_cons in Hk as [-> | Hk]; [exact Hfresh|].
      specialize (Hall _ Hk). rewrite lookup_insert in Hall.
      case_decide; [discriminate | exact Hall].
  - intros [Hnd Hall]. apply NoDup_cons in Hnd as [Hnotin Hnd].
    assert (Hfresh : Circuit.nodes c !! Str.strip name = None)
      by (apply Hall; left).
    unfold Circuit.declare_node. rewrite Hfresh. simpl. apply IH. split; [exact Hnd|]. intros k Hk. simpl.
    rewrite lookup_insert_ne; [apply Hall; right; exact Hk|].
    intros <-. contradiction.
Qed.

Lemma declare_nodes_domain names : forall c c',
  declare_nodes names c = Ok c' ->
  forall k, is_Some (Circuit.nodes c' !! k)
            <-> is_Some (Circuit.nodes c !! k) \/ k ∈ declared_names names.
Proof.
  unfold declared_names.
  induction names as [|name names IH]; intros c c'; simpl.
  { intros [= <-] k. split; [auto|]. intros [H | H]; [exact H | inversion H]. }
  destruct (Str.is_empty (Str.strip name)) eqn:He; simpl; [apply IH|].
  destruct (Circuit.declare_node (Str.strip name) c) as [c1|] eqn:E1;
    simpl; [|discriminate].
  apply declare_node_Ok in E1 as [Hfresh ->].
  intros H k. rewrite (IH _ _ H k). simpl.
  rewrite lookup_insert_is_Some', elem_of_cons. intuition congruence.
Qed.

End NodeLine.

(** X14: the names of a [node] line, each trimmed and the empty ones
    dropped, are declared without failure exactly when they are pairwise
    different and none of them is declared already; the nodes afterwards
    are those before together with these names. *)
Theorem declare_nodes_succeeds_iff (node_names : list string) (c : Circuit.t) :
  ((exists c', Parser.declare_nodes node_names c = Ok c')
   <-> NoDup (declared_names node_names)
       /\ (forall k, k ∈ declared_names node_names ->
                     Circuit.nodes c !! k = None))
  /\ (forall c', Parser.declare_nodes node_names c = Ok c' ->
        forall k, is_Some (Circuit.nodes c' !! k)
                  <-> is_Some (Circuit.nodes c !! k)
                      \/ k ∈ declared_names node_names).
Proof.
  split; [apply declare_nodes_succeeds | apply declare_nodes_domain].
Qed.

Lemma declare_nodes_succeeds_iff_witness :
  exists c',
    Parser.declare_nodes ["a"; " b "; ""; "c"] Circuit.new = Ok c'
    /\ is_Some (Circuit.nodes c' !! "b").
Proof.
  destruct (Parser.declare_nodes ["a"; " b "; ""; "c"] Circuit.new)
    as [c'|e] eqn:E; [|vm_compute in E; discriminate].
  exists c'. split; [reflexivity|].
  apply (proj2 (declare_nodes_succeeds_iff _ _) c' E "b").
  right. vm_compute. repeat constructor.
Defined.



(** ** Failures of the driver, with their line *)

(** X16: a closing marker met outside a block fails, on its line, with the
    end-without-start error. *)
Theorem block_end_without_start
  (text : string) (pre post : list string) (l : string) (st : Parser.locals) :
  Str.split Str.newline (Str.strip text) = pre ++ l :: post ->
  Parser.parse_lines 1 pre Parser.init = Ok st ->
  Parser.in_subcircuit_block st = false ->
  Str.startswith (Str.strip l) "[/subcircuit]" = true ->
  Parser.parse text
  = Raise (ValueError ("On line " +:+ Str.of_nat (S (length pre))
             +:+ ": Found end of block '[/subcircuit]' without a start.")).
Proof.
  intros Hsplit Hpre Hb Hl.
  rewrite (parse_raises_at _ _ _ _ _
             (ValueError "Found end of block '[/subcircuit]' without a start.")
             Hsplit Hpre); [reflexivity|].
  unfold Parser.process_line. rewrite Hl, Hb. reflexivity.
Qed.

Lemma block_end_without_start_witness :
  Parser.parse (doc ["node a"; "  [/subcircuit] "; "node b"])
  = Raise (ValueError
      "On line 2: Found end of block '[/subcircuit]' without a start.").
Proof.
  apply (block_end_without_start _ ["node a"] ["node b"] "  [/subcircuit] "
           (Parser.mk (Circuit.mk ∅ {[ "a" := Node.new 0 "a" ]} ∅ None 1)
              false None [])).
  - vm_compute. reflexivity.
  - vm_compute. reflexivity.
  - reflexivity.
  - vm_compute. reflexivity.
Defined.

(** X17: an opening marker met while a block is open fails, on its line,
    with the nesting error. *)
Theorem nested_block_rejected
  (text : string) (pre post : list string) (l : string) (st : Parser.locals) :
  Str.split Str.newline (Str.strip text) = pre ++ l :: post ->
  Parser.parse_lines 1 pre Parser.init = Ok st ->
  Parser.in_subcircuit_block st = true ->
  Str.startswith (Str.strip l) "[subcircuit" = true ->
  Parser.parse text
  = Raise (ValueError ("On line " +:+ Str.of_nat (S (length pre))
             +:+ ": Cannot nest subcircuits.")).
Proof.
  intros Hsplit Hpre Hb Hl.
  rewrite (parse_raises_at _ _ _ _ _ (ValueError "Cannot nest subcircuits.")
             Hsplit Hpre); [reflexivity|].
  unfold Parser.process_line.
  rewrite (block_start_not_end _ Hl), Hl, Hb. reflexivity.
Qed.

Lemma nested_block_rejected_witness :
  Parser.parse (doc ["[subcircuit B]"; "expose p"; "[subcircuit A]";
                     "[/subcircuit]"; "[/subcircuit]"])
  = Raise (ValueError "On line 3: Cannot nest subcircuits.").
Proof.
  apply (nested_block_rejected _ ["[subcircuit B]"; "expose p"]
           ["[/subcircuit]"; "[/subcircuit]"] "[subcircuit A]"
           (Parser.mk Circuit.new true (Some "B") ["expose p"])).
  - vm_compute. reflexivity.
  - vm_compute. reflexivity.
  - reflexivity.
  - vm_compute. reflexivity.
Defined.



(** ** Letter case of the first token *)

Section LetterCase.

Import Parser.

Lemma parse_component_line_first_token line1 line2 t1 t2 args c :
  shlex.split line1 = Ok (t1 :: args) ->
  shlex.split line2 = Ok (t2 :: args) ->
  Str.lower t1 = Str.lower t2 ->
  _parse_component_line line1 c = _parse_component_line line2 c.
Proof.
  intros H1 H2 Hl. unfold _parse_component_line, build_component.
  rewrite H1, H2. simpl. destruct args as [|comp_name tokens]; [reflexivity|].
  rewrite Hl. reflexivity.
Qed.

End LetterCase.

(** X19: outside a block, the letter case of the first token of a line
    plays no part: two lines that are neither markers nor skipped and whose
    tokens agree, up to the case of the first one, are processed with the
    same outcome. *)
Theorem first_token_case_insensitive
  (line1 line2 : string) (st : Parser.locals) (t1 t2 : string)
  (args : list string) :
  Parser.in_subcircuit_block st = false ->
  is_marker line1 = false -> is_marker line2 = false ->
  skipped (Str.strip line1) = false -> skipped (Str.strip line2) = false ->
  shlex.split (Str.strip line1) = Ok (t1 :: args) ->
  shlex.split (Str.strip line2) = Ok (t2 :: args) ->
  Str.lower t1 = Str.lower t2 ->
  Parser.process_line (Str.strip line1) st
  = Parser.process_line (Str.strip line2) st.
Proof.
  unfold is_marker, skipped.
  intros Hb Hm1 Hm2 Hk1 Hk2 H1 H2 Hl.
  apply orb_false_elim in Hm1 as [He1 Hs1].
  apply orb_false_elim in Hm2 as [He2 Hs2].
  unfold Parser.process_line.
  rewrite He1, Hs1, He2, Hs2, Hb, Hk1, Hk2, H1, H2. unfold bind at 1 3.
  cbv zeta. rewrite Hl.
  rewrite (parse_component_line_first_token _ _ _ _ _ _ H1 H2 Hl).
  reflexivity.
Qed.

Lemma first_token_case_insensitive_witness :
  Parser.process_line (Str.strip "GROUND gnd") Parser.init
  = Parser.process_line (Str.strip "  ground gnd") Parser.init.
Proof.
  apply (first_token_case_insensitive _ _ _ "GROUND" "ground" ["gnd"]);
    vm_compute; reflexivity.
Defined.

(** ** Blocks put together *)

Section CollectShift.

Import Parser.

Lemma expose_pins_shift pin_defs : forall interface,
  expose_pins pin_defs interface =
  match expose_pins pin_defs [] with
  | Ok added => Ok (interface ++ added)
  | Raise e => Raise e
  end.
Proof.
  induction pin_defs as [|pin_def pin_defs IH]; intros interface; simpl.
  - rewrite app_nil_r. reflexivity.
  - destruct (Str.contains equals pin_def).
    + destruct (Str.is_empty _); [reflexivity|].
      rewrite (IH (interface ++ _)), (IH [_]).
      destruct (expose_pins pin_defs []); [|reflexivity].
      rewrite <- app_assoc. reflexivity.
    + destruct (Str.is_empty pin_def); [reflexivity|].
      rewrite (IH (interface ++ _)), (IH [_]).
      destruct (expose_pins pin_defs []); [|reflexivity].
      rewrite <- app_assoc. reflexivity.
Qed.

Lemma collect_shift lines : forall interface body,
  collect lines interface body =
  match collect lines [] [] with
  | Ok (added, more) => Ok (interface ++ added, body ++ more)
  | Raise e => Raise e
  end.
Proof.
  induction lines as [|l lines IH]; intros interface body; simpl.
  - rewrite !app_nil_r. reflexivity.
  - destruct (_ || _); [apply IH|].
    destruct (Str.startswith (Str.strip l) "expose").
    + destruct (Str.split_ws_1 (Str.strip l)) as [|? [|rest ?]];
        try reflexivity.
      rewrite (expose_pins_shift _ interface).
      destruct (expose_pins _ []) as [added|]; simpl; [|reflexivity].
      rewrite (IH (interface ++ added)), (IH added).
      destruct (collect lines [] []) as [[a m]|]; [|reflexivity].
      rewrite <- app_assoc. reflexivity.
    + rewrite (IH interface (body ++ _)), (IH [] [_]).
      destruct (collect lines [] []) as [[a m]|]; [|reflexivity].
      simpl. rewrite <- app_assoc. reflexivity.
Qed.

End CollectShift.

(** X20: blocks compose: when the lines [l1] alone yield the interface
    [i1] and the lines [l2] alone yield [i2], a block made of [l1] followed
    by [l2] registers the interface [i1 ++ i2] (if it is not empty), and
    its body text is made of the body lines of both, in order. *)
Theorem block_interface_concatenates
  (name : string) (l1 l2 : list string) (c : Circuit.t)
  (i1 b1 i2 b2 : list string) :
  Parser.collect l1 [] [] = Ok (i1, b1) ->
  Parser.collect l2 [] [] = Ok (i2, b2) ->
  i1 ++ i2 <> [] ->
  exists c',
    Parser._parse_subcircuit_block name (l1 ++ l2) c = Ok c'
    /\ Circuit.subcircuit_definitions c' !! name
       = Some (SubcircuitDefinition.mk name (i1 ++ i2)
                 (Str.join Parser.nl (b1 ++ b2))).
Proof.
  intros H1 H2 Hne. unfold Parser._parse_subcircuit_block.
  rewrite collect_app, H1, (collect_shift l2 i1 b1), H2. simpl.
  destruct (i1 ++ i2) eqn:E; [congruence|].
  eexists. split; [reflexivity|]. simpl. apply lookup_insert_eq.
Qed.

Lemma block_interface_concatenates_witness :
  exists c',
    Parser._parse_subcircuit_block "amp"
      (["expose in"; "node mid"] ++ ["resistor R 1k from in to mid";
                                     "expose out=mid, gnd"])
      Circuit.new = Ok c'
    /\ Circuit.subcircuit_definitions c' !! "amp"
       = Some (SubcircuitDefinition.mk "amp" (["in"] ++ ["out"; "gnd"])
                 (Str.join Parser.nl
                    (["node mid"] ++ ["resistor R 1k from in to mid"]))).
Proof.
  apply block_interface_concatenates.
  - vm_compute. reflexivity.
  - vm_compute. reflexivity.
  - discriminate.
Defined.
